(** * ImageUploader: key derivation, parameter clamping and the polling loop

    A shallow embedding of [src/ImageUploader.jsx] (the React component
    [ImageUploader]) and the properties of its output-key derivation
    ([getOutputKey]), of its parameter handlers ([handleQualityChange],
    [handleDimensionChange]) and of its upload / polling state machine
    ([handleUpload], [stopPolling], the polling [useEffect]). *)

From Stdlib Require Import List NArith ZArith Lia Bool String Ascii DecimalString Floats.
Import ListNotations.

Set Implicit Arguments.

(** ** JavaScript strings

    A JavaScript string is a sequence of UTF-16 code units.  The regular
    expressions of the component distinguish the line terminators U+2028 and
    U+2029, which are not bytes, so a string is a list of code units rather
    than a list of [ascii]. *)

Module JS.

Definition CodeUnit := N.
Definition JSString := list CodeUnit.

(** A string literal of the source (ASCII only). *)
Definition str (s : string) : JSString :=
  List.map N_of_ascii (list_ascii_of_string s).

Definition eqString (a b : JSString) : bool :=
  if list_eq_dec N.eq_dec a b then true else false.

(** [\d] : the ten ASCII digits. *)
Definition isDigit (c : CodeUnit) : bool := ((48 <=? c) && (c <=? 57))%N.

(** The characters that [.] does not match (no [s] flag): LF, CR, LS, PS. *)
Definition isLineTerminator (c : CodeUnit) : bool :=
  ((c =? 10) || (c =? 13) || (c =? 8232) || (c =? 8233))%N.

Definition dot : CodeUnit := 46%N.
Definition slash : CodeUnit := 47%N.

(** [String.prototype.lastIndexOf] for a one-character search string: the
    index of the last occurrence, [-1] when there is none. *)
Fixpoint lastIndexOf_from (i : Z) (found : Z) (c : CodeUnit) (s : JSString) : Z :=
  match s with
  | [] => found
  | x :: r => lastIndexOf_from (i + 1) (if (x =? c)%N then i else found) c r
  end.

Definition lastIndexOf (s : JSString) (c : CodeUnit) : Z :=
  lastIndexOf_from 0 (-1) c s.

(** [String.prototype.substring(start, end)]: both indices are clamped to
    [0 .. length] and swapped when [start > end]. *)
Definition clampIndex (s : JSString) (i : Z) : nat :=
  Z.to_nat (Z.min (Z.max i 0) (Z.of_nat (List.length s))).

Definition substring (s : JSString) (istart iend : Z) : JSString :=
  let a := clampIndex s istart in
  let b := clampIndex s iend in
  let lo := Nat.min a b in
  let hi := Nat.max a b in
  firstn (hi - lo) (skipn lo s).

(** [a || b] on strings: the empty string is the only falsy string. *)
Definition orElse (a b : JSString) : JSString :=
  match a with [] => b | _ :: _ => a end.

(** [String.prototype.toLowerCase], on the ASCII letters; the component
    applies it to the constant [outputFormat] only. *)
Definition toLowerCase (s : JSString) : JSString :=
  List.map (fun c => if ((65 <=? c) && (c <=? 90))%N then (c + 32)%N else c) s.

(** Decimal rendering of a non-negative integer inside a template literal. *)
Definition showN (n : N) : JSString :=
  str (NilZero.string_of_uint (N.to_uint n)).

(** *** Regular-expression pieces

    A matcher consumes a prefix of its input and returns the matched text and
    the remaining input.  The two patterns of the component are sequences of
    literals, [\d+] and a final [.*]; every [\d+] is followed by a literal
    that is not a digit, so the greedy match is the only one and no
    backtracking is involved. *)

Definition Matcher := JSString -> option (JSString * JSString).

Fixpoint span (p : CodeUnit -> bool) (s : JSString) : JSString * JSString :=
  match s with
  | [] => ([], [])
  | c :: r => if p c then let (m, rest) := span p r in (c :: m, rest)
              else ([], s)
  end.

(** A literal. *)
Fixpoint lit (l : JSString) (s : JSString) : option (JSString * JSString) :=
  match l with
  | [] => Some ([], s)
  | c :: l' =>
      match s with
      | x :: r =>
          if (x =? c)%N
          then match lit l' r with
               | Some (m, rest) => Some (c :: m, rest)
               | None => None
               end
          else None
      | [] => None
      end
  end.

(** [\d+] *)
Definition digits1 : Matcher := fun s =>
  match span isDigit s with
  | ([], _) => None
  | (d, rest) => Some (d, rest)
  end.

(** Dot-star: the longest run of characters that are not line terminators. *)
Definition dotStar : Matcher := fun s =>
  Some (span (fun c => negb (isLineTerminator c)) s).

(** Sequencing: the matched texts are concatenated. *)
Definition andThen (m1 m2 : Matcher) : Matcher := fun s =>
  match m1 s with
  | Some (a, r) =>
      match m2 r with
      | Some (b, r') => Some (a ++ b, r')
      | None => None
      end
  | None => None
  end.

Declare Scope matcher_scope.
Delimit Scope matcher_scope with matcher.
Notation "m1 ;; m2" := (andThen m1 m2) (at level 61, right associativity) : matcher_scope.

(** [s.match(re)] for a regular expression [re] made of the anchor, a first
    group holding the prefix pattern [P], an escaped slash and a second group
    holding dot-star: the two capture groups, or [None] for JavaScript's
    [null].  The expression has no end anchor, so the match may stop before
    the end of [s], at the first line terminator after the slash. *)
Definition matchAnchored (P : Matcher) (s : JSString) : option (JSString * JSString) :=
  match P s with
  | Some (g1, r) =>
      match lit [slash] r with
      | Some (_, r') =>
          match dotStar r' with
          | Some (g2, _) => Some (g1, g2)
          | None => None
          end
      | None => None
      end
  | None => None
  end.

End JS.

Import JS.

(** ** The console *)

Inductive ConsoleEntry : Type :=
| ConsoleLog (args : list JSString)
| ConsoleWarn (args : list JSString)
| ConsoleError (args : list JSString).

(** ** Configuration constants (lines 21-27) *)

Definition outputBucketName : JSString := str "vyomuchat-image-resizer-output".
Definition region : JSString := str "eu-north-1".
Definition outputFormat : JSString := str "jpeg".
Definition API_BASE_URL : JSString :=
  str "https://13rp2fscr2.execute-api.eu-north-1.amazonaws.com/api".
Definition pollingIntervalMs : N := 2000.

(** ** getOutputKey (lines 96-123) *)

(** The first group of the pattern of line 97, [q\d+_w\d+_h\d+]. *)
Definition newPrefixPattern : Matcher :=
  (lit (str "q") ;; digits1 ;; lit (str "_w") ;; digits1 ;; lit (str "_h") ;; digits1)%matcher.

(** The first group of the pattern of line 108, [quality\d+]. *)
Definition oldPrefixPattern : Matcher :=
  (lit (str "quality") ;; digits1)%matcher.

(** The expression
    [filenamePart.substring(0, filenamePart.lastIndexOf(".")) || filenamePart]
    of lines 101-103 and 114-116. *)
Definition baseName (filenamePart : JSString) : JSString :=
  orElse (substring filenamePart 0 (lastIndexOf filenamePart dot)) filenamePart.

(** The returned key together with what the call writes to the console. *)
Definition getOutputKey (baseKey : JSString) : JSString * list ConsoleEntry :=
  match matchAnchored newPrefixPattern baseKey with
  | Some (prefixPart, filenamePart) =>
      let extension := toLowerCase outputFormat in
      (str "resized-" ++ prefixPart ++ str "/" ++ baseName filenamePart
         ++ str "." ++ extension, [])
  | None =>
      match matchAnchored oldPrefixPattern baseKey with
      | Some (oldPrefix, filenamePart) =>
          let extension := toLowerCase outputFormat in
          (str "resized-" ++ oldPrefix ++ str "/" ++ baseName filenamePart
             ++ str "." ++ extension,
           [ConsoleWarn
              [str "Detected old key format, generating compatible output key."]])
      | None =>
          (str "resized-unknown/" ++ baseKey,
           [ConsoleError [str "Could not parse prefix from base key:"; baseKey]])
      end
  end.

(** ** JavaScript numbers

    Numbers are IEEE-754 doubles.  [Number(value)] is applied by the caller:
    the handlers below receive the number it returns. *)

Definition isNaN (x : float) : bool := PrimFloat.is_nan x.

(** [Math.max(a, b)] and [Math.min(a, b)]: NaN when an argument is NaN, and
    [+0] counts as larger than [-0]. *)
Definition Math_max (a b : float) : float :=
  if (isNaN a || isNaN b)%bool then nan
  else if (a <? b)%float then b
  else if (b <? a)%float then a
  else if (PrimFloat.is_zero a && PrimFloat.get_sign a)%bool then b else a.

Definition Math_min (a b : float) : float :=
  if (isNaN a || isNaN b)%bool then nan
  else if (a <? b)%float then a
  else if (b <? a)%float then b
  else if (PrimFloat.is_zero b && PrimFloat.get_sign b)%bool then b else a.

(** ** The component and its environment *)

(** The fields of a [File] the component reads. *)
Record File : Type := { fileName : JSString; fileType : JSString }.

Definition TimerId := nat.

(** A live [setInterval] timer; its callback closes over [outputKey] and
    [publicUrl] (lines 242-243). *)
Record Interval : Type :=
  { intervalId : TimerId; intervalKey : JSString; intervalUrl : JSString }.

(** A [HEAD] request in flight (line 264); the code after the [await] closes
    over [publicUrl]. *)
Record Probe : Type :=
  { probeId : nat; probeUrl : JSString; probeRequest : JSString }.

(** A call of [handleUpload] suspended at one of its awaits, with the
    constants it has bound so far. *)
Inductive UploadStage : Type :=
| AwaitingBroker                                  (* line 192 *)
| AwaitingTransfer (uploadUrl key : JSString).    (* line 206 *)

Record UploadFlow : Type :=
  { flowId : nat; flowFile : File; flowContentType : JSString;
    flowQuality : float; flowWidth : float; flowHeight : float;
    flowStage : UploadStage }.

Record State : Type := {
  (* useState, lines 5-13 *)
  selectedFile : option File;
  uploadStatus : JSString;
  isLoading : bool;
  resizedImageUrl : option JSString;
  originalPreviewUrl : option JSString;
  lastUploadedKey : option JSString;
  quality : float;
  width : float;
  height : float;
  (* useRef, lines 16-17 *)
  pollingIntervalRef : option TimerId;
  pollingAttemptsRef : nat;
  (* the browser *)
  intervals : list Interval;      (* timers created by setInterval and not cleared *)
  nextHandle : nat;               (* the next fresh timer / request handle *)
  probes : list Probe;            (* HEAD requests awaiting their response *)
  issued : list JSString;         (* every HEAD request sent so far, newest first *)
  uploads : list UploadFlow;      (* suspended handleUpload calls *)
  console : list ConsoleEntry     (* console output, newest first *)
}.

Definition setSelectedFile (v : option File) (s : State) : State :=
  {| selectedFile := v; uploadStatus := uploadStatus s; isLoading := isLoading s;
     resizedImageUrl := resizedImageUrl s; originalPreviewUrl := originalPreviewUrl s;
     lastUploadedKey := lastUploadedKey s; quality := quality s; width := width s;
     height := height s; pollingIntervalRef := pollingIntervalRef s;
     pollingAttemptsRef := pollingAttemptsRef s; intervals := intervals s;
     nextHandle := nextHandle s; probes := probes s; issued := issued s;
     uploads := uploads s; console := console s |}.

Definition setUploadStatus (v : JSString) (s : State) : State :=
  {| selectedFile := selectedFile s; uploadStatus := v; isLoading := isLoading s;
     resizedImageUrl := resizedImageUrl s; originalPreviewUrl := originalPreviewUrl s;
     lastUploadedKey := lastUploadedKey s; quality := quality s; width := width s;
     height := height s; pollingIntervalRef := pollingIntervalRef s;
     pollingAttemptsRef := pollingAttemptsRef s; intervals := intervals s;
     nextHandle := nextHandle s; probes := probes s; issued := issued s;
     uploads := uploads s; console := console s |}.

Definition setIsLoading (v : bool) (s : State) : State :=
  {| selectedFile := selectedFile s; uploadStatus := uploadStatus s; isLoading := v;
     resizedImageUrl := resizedImageUrl s; originalPreviewUrl := originalPreviewUrl s;
     lastUploadedKey := lastUploadedKey s; quality := quality s; width := width s;
     height := height s; pollingIntervalRef := pollingIntervalRef s;
     pollingAttemptsRef := pollingAttemptsRef s; intervals := intervals s;
     nextHandle := nextHandle s; probes := probes s; issued := issued s;
     uploads := uploads s; console := console s |}.

Definition setResizedImageUrl (v : option JSString) (s : State) : State :=
  {| selectedFile := selectedFile s; uploadStatus := uploadStatus s;
     isLoading := isLoading s; resizedImageUrl := v;
     originalPreviewUrl := originalPreviewUrl s; lastUploadedKey := lastUploadedKey s;
     quality := quality s; width := width s; height := height s;
     pollingIntervalRef := pollingIntervalRef s;
     pollingAttemptsRef := pollingAttemptsRef s; intervals := intervals s;
     nextHandle := nextHandle s; probes := probes s; issued := issued s;
     uploads := uploads s; console := console s |}.

Definition setOriginalPreviewUrl (v : option JSString) (s : State) : State :=
  {| selectedFile := selectedFile s; uploadStatus := uploadStatus s;
     isLoading := isLoading s; resizedImageUrl := resizedImageUrl s;
     originalPreviewUrl := v; lastUploadedKey := lastUploadedKey s;
     quality := quality s; width := width s; height := height s;
     pollingIntervalRef := pollingIntervalRef s;
     pollingAttemptsRef := pollingAttemptsRef s; intervals := intervals s;
     nextHandle := nextHandle s; probes := probes s; issued := issued s;
     uploads := uploads s; console := console s |}.

Definition setLastUploadedKey (v : option JSString) (s : State) : State :=
  {| selectedFile := selectedFile s; uploadStatus := uploadStatus s;
     isLoading := isLoading s; resizedImageUrl := resizedImageUrl s;
     originalPreviewUrl := originalPreviewUrl s; lastUploadedKey := v;
     quality := quality s; width := width s; height := height s;
     pollingIntervalRef := pollingIntervalRef s;
     pollingAttemptsRef := pollingAttemptsRef s; intervals := intervals s;
     nextHandle := nextHandle s; probes := probes s; issued := issued s;
     uploads := uploads s; console := console s |}.

Definition setQuality (v : float) (s : State) : State :=
  {| selectedFile := selectedFile s; uploadStatus := uploadStatus s;
     isLoading := isLoading s; resizedImageUrl := resizedImageUrl s;
     originalPreviewUrl := originalPreviewUrl s; lastUploadedKey := lastUploadedKey s;
     quality := v; width := width s; height := height s;
     pollingIntervalRef := pollingIntervalRef s;
     pollingAttemptsRef := pollingAttemptsRef s; intervals := intervals s;
     nextHandle := nextHandle s; probes := probes s; issued := issued s;
     uploads := uploads s; console := console s |}.

Definition setWidth (v : float) (s : State) : State :=
  {| selectedFile := selectedFile s; uploadStatus := uploadStatus s;
     isLoading := isLoading s; resizedImageUrl := resizedImageUrl s;
     originalPreviewUrl := originalPreviewUrl s; lastUploadedKey := lastUploadedKey s;
     quality := quality s; width := v; height := height s;
     pollingIntervalRef := pollingIntervalRef s;
     pollingAttemptsRef := pollingAttemptsRef s; intervals := intervals s;
     nextHandle := nextHandle s; probes := probes s; issued := issued s;
     uploads := uploads s; console := console s |}.

Definition setHeight (v : float) (s : State) : State :=
  {| selectedFile := selectedFile s; uploadStatus := uploadStatus s;
     isLoading := isLoading s; resizedImageUrl := resizedImageUrl s;
     originalPreviewUrl := originalPreviewUrl s; lastUploadedKey := lastUploadedKey s;
     quality := quality s; width := width s; height := v;
     pollingIntervalRef := pollingIntervalRef s;
     pollingAttemptsRef := pollingAttemptsRef s; intervals := intervals s;
     nextHandle := nextHandle s; probes := probes s; issued := issued s;
     uploads := uploads s; console := console s |}.

Definition setPollingIntervalRef (v : option TimerId) (s : State) : State :=
  {| selectedFile := selectedFile s; uploadStatus := uploadStatus s;
     isLoading := isLoading s; resizedImageUrl := resizedImageUrl s;
     originalPreviewUrl := originalPreviewUrl s; lastUploadedKey := lastUploadedKey s;
     quality := quality s; width := width s; height := height s;
     pollingIntervalRef := v; pollingAttemptsRef := pollingAttemptsRef s;
     intervals := intervals s; nextHandle := nextHandle s; probes := probes s;
     issued := issued s; uploads := uploads s; console := console s |}.

Definition setPollingAttemptsRef (v : nat) (s : State) : State :=
  {| selectedFile := selectedFile s; uploadStatus := uploadStatus s;
     isLoading := isLoading s; resizedImageUrl := resizedImageUrl s;
     originalPreviewUrl := originalPreviewUrl s; lastUploadedKey := lastUploadedKey s;
     quality := quality s; width := width s; height := height s;
     pollingIntervalRef := pollingIntervalRef s; pollingAttemptsRef := v;
     intervals := intervals s; nextHandle := nextHandle s; probes := probes s;
     issued := issued s; uploads := uploads s; console := console s |}.

Definition withIntervals (v : list Interval) (s : State) : State :=
  {| selectedFile := selectedFile s; uploadStatus := uploadStatus s;
     isLoading := isLoading s; resizedImageUrl := resizedImageUrl s;
     originalPreviewUrl := originalPreviewUrl s; lastUploadedKey := lastUploadedKey s;
     quality := quality s; width := width s; height := height s;
     pollingIntervalRef := pollingIntervalRef s;
     pollingAttemptsRef := pollingAttemptsRef s; intervals := v;
     nextHandle := nextHandle s; probes := probes s; issued := issued s;
     uploads := uploads s; console := console s |}.

Definition withNextHandle (v : nat) (s : State) : State :=
  {| selectedFile := selectedFile s; uploadStatus := uploadStatus s;
     isLoading := isLoading s; resizedImageUrl := resizedImageUrl s;
     originalPreviewUrl := originalPreviewUrl s; lastUploadedKey := lastUploadedKey s;
     quality := quality s; width := width s; height := height s;
     pollingIntervalRef := pollingIntervalRef s;
     pollingAttemptsRef := pollingAttemptsRef s; intervals := intervals s;
     nextHandle := v; probes := probes s; issued := issued s; uploads := uploads s;
     console := console s |}.

Definition withProbes (v : list Probe) (s : State) : State :=
  {| selectedFile := selectedFile s; uploadStatus := uploadStatus s;
     isLoading := isLoading s; resizedImageUrl := resizedImageUrl s;
     originalPreviewUrl := originalPreviewUrl s; lastUploadedKey := lastUploadedKey s;
     quality := quality s; width := width s; height := height s;
     pollingIntervalRef := pollingIntervalRef s;
     pollingAttemptsRef := pollingAttemptsRef s; intervals := intervals s;
     nextHandle := nextHandle s; probes := v; issued := issued s; uploads := uploads s;
     console := console s |}.

Definition withIssued (v : list JSString) (s : State) : State :=
  {| selectedFile := selectedFile s; uploadStatus := uploadStatus s;
     isLoading := isLoading s; resizedImageUrl := resizedImageUrl s;
     originalPreviewUrl := originalPreviewUrl s; lastUploadedKey := lastUploadedKey s;
     quality := quality s; width := width s; height := height s;
     pollingIntervalRef := pollingIntervalRef s;
     pollingAttemptsRef := pollingAttemptsRef s; intervals := intervals s;
     nextHandle := nextHandle s; probes := probes s; issued := v; uploads := uploads s;
     console := console s |}.

Definition withUploads (v : list UploadFlow) (s : State) : State :=
  {| selectedFile := selectedFile s; uploadStatus := uploadStatus s;
     isLoading := isLoading s; resizedImageUrl := resizedImageUrl s;
     originalPreviewUrl := originalPreviewUrl s; lastUploadedKey := lastUploadedKey s;
     quality := quality s; width := width s; height := height s;
     pollingIntervalRef := pollingIntervalRef s;
     pollingAttemptsRef := pollingAttemptsRef s; intervals := intervals s;
     nextHandle := nextHandle s; probes := probes s; issued := issued s; uploads := v;
     console := console s |}.

Definition withConsole (v : list ConsoleEntry) (s : State) : State :=
  {| selectedFile := selectedFile s; uploadStatus := uploadStatus s;
     isLoading := isLoading s; resizedImageUrl := resizedImageUrl s;
     originalPreviewUrl := originalPreviewUrl s; lastUploadedKey := lastUploadedKey s;
     quality := quality s; width := width s; height := height s;
     pollingIntervalRef := pollingIntervalRef s;
     pollingAttemptsRef := pollingAttemptsRef s; intervals := intervals s;
     nextHandle := nextHandle s; probes := probes s; issued := issued s;
     uploads := uploads s; console := v |}.

Definition consoleLog (args : list JSString) (s : State) : State :=
  withConsole (ConsoleLog args :: console s) s.
Definition consoleWarn (args : list JSString) (s : State) : State :=
  withConsole (ConsoleWarn args :: console s) s.
Definition consoleError (args : list JSString) (s : State) : State :=
  withConsole (ConsoleError args :: console s) s.

(** Statements of a handler, in the order of the source. *)
Notation "s |> f" := (f s) (at level 68, left associativity, only parsing).

(** The state after the first render and the first run of the effect (which
    finds [lastUploadedKey] null and starts nothing). *)
Definition initialState : State :=
  {| selectedFile := None; uploadStatus := []; isLoading := false;
     resizedImageUrl := None; originalPreviewUrl := None; lastUploadedKey := None;
     quality := 85%float; width := 128%float; height := 128%float;
     pollingIntervalRef := None; pollingAttemptsRef := 0;
     intervals := []; nextHandle := 0; probes := []; issued := [];
     uploads := []; console := [] |}.

(** [setInterval] and [clearInterval]. *)
Definition setInterval (key url : JSString) (s : State) : TimerId * State :=
  let t := nextHandle s in
  (t, s |> withIntervals ({| intervalId := t; intervalKey := key; intervalUrl := url |}
                            :: intervals s)
        |> withNextHandle (S t)).

Definition clearInterval (t : TimerId) (s : State) : State :=
  withIntervals (filter (fun iv => negb (intervalId iv =? t)) (intervals s)) s.

(** stopPolling, lines 30-37.  A timer handle is never falsy (a positive
    number in a browser), so the test of line 31 is a test for null. *)
Definition stopPolling (s : State) : State :=
  match pollingIntervalRef s with
  | Some t =>
      s |> clearInterval t
        |> setPollingIntervalRef None
        |> setPollingAttemptsRef 0
        |> consoleLog [str "Polling stopped."]
  | None => s
  end.

(** handleFileChange, lines 40-68.  The preview is read asynchronously; its
    callbacks are [readerLoadEnd] and [readerError]. *)
Definition handleFileChange (file : option File) (s : State) : State :=
  match file with
  | Some f =>
      s |> setSelectedFile (Some f)
        |> setUploadStatus (str "Selected: " ++ fileName f)
        |> setResizedImageUrl None
        |> setLastUploadedKey None
        |> setIsLoading false
        |> stopPolling
        |> setOriginalPreviewUrl None
  | None =>
      s |> setOriginalPreviewUrl None
        |> setSelectedFile None
        |> setUploadStatus []
  end.

Definition readerLoadEnd (result : option JSString) (s : State) : State :=
  setOriginalPreviewUrl result s.

Definition readerError (s : State) : State :=
  s |> consoleError [str "Error reading file for preview."]
    |> setUploadStatus (str "Error generating preview.").

(** handleQualityChange, lines 71-74; [newQuality] is [Number(newQuality)]. *)
Definition handleQualityChange (newQuality : float) (s : State) : State :=
  let numQuality := Math_max 1 (Math_min 100 newQuality) in
  setQuality (if isNaN numQuality then 85%float else numQuality) s.

(** handleDimensionChange, lines 77-85; [value] is [Number(value)]. *)
Definition handleDimensionChange (value : float) (type : JSString) (s : State) : State :=
  let numValue := Math_max 1 value in
  let finalValue :=
    if (isNaN numValue || (numValue =? 0)%float)%bool then 128%float else numValue in
  if eqString type (str "width") then setWidth finalValue s
  else if eqString type (str "height") then setHeight finalValue s
  else s.

(** incrementQuality and decrementQuality, lines 88-93. *)
Definition incrementQuality (s : State) : State :=
  handleQualityChange (quality s + 1)%float s.
Definition decrementQuality (s : State) : State :=
  handleQualityChange (quality s - 1)%float s.

(** JavaScript truthiness of a string-or-null value. *)
Definition truthy (v : option JSString) : bool :=
  match v with Some (_ :: _) => true | _ => false end.

(** [Response.ok]: the status is in the range 200-299. *)
Definition responseOk (status : N) : bool := ((200 <=? status) && (status <=? 299))%N.

(** What the awaited requests can deliver. *)
Inductive BrokerOutcome : Type :=
| BrokerOk (uploadUrl key : JSString)       (* ok response with body { uploadUrl, key } *)
| BrokerHttpError (errorField : option JSString) (statusText : JSString) (status : N)
                                            (* response that is not ok; the body's error field *)
| BrokerRejected (message : JSString).      (* fetch or response.json() rejects *)

Inductive TransferOutcome : Type :=
| TransferResponse (status : N) (statusText errorText : JSString)
| TransferRejected (message : JSString).

Inductive ProbeOutcome : Type :=
| HeadResponse (status : N)
| HeadRejected (message : JSString).

Inductive DownloadOutcome : Type :=
| DownloadResponse (ok : bool) (statusText : JSString)
| DownloadRejected (message : JSString).

(** *** handleUpload, lines 169-235

    The call runs up to its first await ([handleUpload]); [brokerContinuation]
    is the code after [await fetch(apiUrl)] up to the next await, and
    [transferContinuation] the code after [await fetch(uploadUrl, ...)].  The
    query string of [apiUrl] is kept as the fields of the suspended call;
    file names are well-formed UTF-16, so [encodeURIComponent] does not
    throw. *)

Definition handleUpload (s : State) : State :=
  match selectedFile s with
  | None => setUploadStatus (str "Please select a file first.") s
  | Some fileToUpload =>
      let s1 :=
        s |> setIsLoading true
          |> setResizedImageUrl None
          |> setUploadStatus (str "Getting upload URL...")
          |> setLastUploadedKey None
          |> stopPolling in
      let contentType := orElse (fileType fileToUpload) (str "application/octet-stream") in
      s1 |> withUploads ({| flowId := nextHandle s1; flowFile := fileToUpload;
                            flowContentType := contentType;
                            flowQuality := quality s; flowWidth := width s;
                            flowHeight := height s; flowStage := AwaitingBroker |}
                           :: uploads s1)
         |> withNextHandle (S (nextHandle s1))
  end.

(** The catch block, lines 227-234, for an error with this message. *)
Definition handleUpload_catch (message : JSString) (s : State) : State :=
  s |> consoleError [str "Error during upload:"; message]
    |> setUploadStatus (str "Error: " ++ message)
    |> setIsLoading false
    |> setLastUploadedKey None
    |> stopPolling.

Definition brokerContinuation (fl : UploadFlow) (o : BrokerOutcome) (s : State) : State :=
  match o with
  | BrokerOk uploadUrl key =>
      s |> setUploadStatus (str "Uploading image...")
        |> withUploads ({| flowId := flowId fl; flowFile := flowFile fl;
                           flowContentType := flowContentType fl;
                           flowQuality := flowQuality fl; flowWidth := flowWidth fl;
                           flowHeight := flowHeight fl;
                           flowStage := AwaitingTransfer uploadUrl key |} :: uploads s)
  | BrokerHttpError errorField statusText status =>
      let reason := orElse (match errorField with Some e => e | None => [] end) statusText in
      handleUpload_catch
        (str "Failed to get upload URL: " ++ reason ++ str " (" ++ showN status ++ str ")") s
  | BrokerRejected message => handleUpload_catch message s
  end.

Definition transferContinuation (key : JSString) (o : TransferOutcome) (s : State) : State :=
  match o with
  | TransferResponse status statusText errorText =>
      if responseOk status then
        s |> setUploadStatus (str "Upload successful! Waiting for resized version...")
          |> setLastUploadedKey (Some key)
          |> setSelectedFile None
      else
        s |> consoleError [str "S3 Upload Error Response:"; errorText]
          |> handleUpload_catch
               (str "Upload failed: " ++ statusText ++ str " (" ++ showN status ++ str ")")
  | TransferRejected message => handleUpload_catch message s
  end.

(** The onClick of "Resize Another Image", lines 455-465. *)
Definition resetClick (s : State) : State :=
  s |> setResizedImageUrl None
    |> setOriginalPreviewUrl None
    |> setUploadStatus []
    |> setLastUploadedKey None
    |> setSelectedFile None
    |> setIsLoading false
    |> stopPolling.

(** handleDownloadClick, lines 135-166: up to its await, and after it.  The
    temporary link it clicks is a DOM effect outside the component state. *)
Definition handleDownloadClick (s : State) : State :=
  if truthy (resizedImageUrl s) then setUploadStatus (str "Preparing download...") s else s.

Definition downloadContinuation (o : DownloadOutcome) (s : State) : State :=
  let failed message :=
    s |> consoleError [str "Download error:"; message]
      |> setUploadStatus (str "Error preparing download: " ++ message) in
  match o with
  | DownloadResponse true _ => setUploadStatus (str "Download started.") s
  | DownloadResponse false statusText =>
      failed (str "Failed to fetch image for download: " ++ statusText)
  | DownloadRejected message => failed message
  end.

(** *** The polling effect, lines 238-296 *)

Definition publicUrlOf (outputKey : JSString) : JSString :=
  str "https://" ++ outputBucketName ++ str ".s3." ++ region
    ++ str ".amazonaws.com/" ++ outputKey.

(** [fetch(publicUrl + "?t=" + Date.now(), { method: "HEAD" })], line 264. *)
Definition fetchHead (publicUrl : JSString) (now : N) (s : State) : State :=
  let request := publicUrl ++ str "?t=" ++ showN now in
  s |> withProbes ({| probeId := nextHandle s; probeUrl := publicUrl;
                      probeRequest := request |} :: probes s)
    |> withIssued (request :: issued s)
    |> withNextHandle (S (nextHandle s)).

Section Polling.

(** The retry budget; the component fixes it to 15 (line 27). *)
Variable maxPollingAttempts : nat.

(** The interval callback up to its await, lines 249-267. *)
Definition intervalCallback (iv : Interval) (now : N) (s : State) : State :=
  let outputKey := intervalKey iv in
  let publicUrl := intervalUrl iv in
  let s1 := setPollingAttemptsRef (pollingAttemptsRef s + 1) s in
  let s2 :=
    consoleLog [str "Polling attempt #" ++ showN (N.of_nat (pollingAttemptsRef s1))
                  ++ str " for " ++ outputKey] s1 in
  if maxPollingAttempts <? pollingAttemptsRef s2 then
    s2 |> consoleError [str "Polling timed out for:"; publicUrl]
       |> setUploadStatus (str "Image processing timed out. Please try again.")
       |> setIsLoading false
       |> stopPolling
  else fetchHead publicUrl now s2.

(** The interval callback after its await, lines 269-289; [now] is the
    [Date.now()] of line 272. *)
Definition probeContinuation (p : Probe) (o : ProbeOutcome) (now : N) (s : State) : State :=
  let publicUrl := probeUrl p in
  match o with
  | HeadResponse status =>
      if responseOk status then
        s |> consoleLog [str "Polling successful! Image found at:"; publicUrl]
          |> stopPolling
          |> setResizedImageUrl (Some (publicUrl ++ str "?t=" ++ showN now))
          |> setUploadStatus (str "Resized image loaded.")
          |> setIsLoading false
      else if ((status =? 403) || (status =? 404))%N then
        consoleLog [str "Polling attempt failed with status: " ++ showN status
                      ++ str " (Image not ready yet?)"] s
      else
        consoleWarn [str "Polling attempt failed with status: " ++ showN status
                       ++ str ". Will keep trying."] s
  | HeadRejected message => consoleError [str "Polling network error:"; message] s
  end.

(** The body of the effect, lines 239-291. *)
Definition pollingEffect (s : State) : State :=
  let s1 := stopPolling s in
  if truthy (lastUploadedKey s1) then
    let baseKey := match lastUploadedKey s1 with Some k => k | None => [] end in
    let (outputKey, logged) := getOutputKey baseKey in
    let publicUrl := publicUrlOf outputKey in
    let s2 :=
      s1 |> withConsole (logged ++ console s1)
         |> consoleLog [str "Starting polling for expected output key:"; outputKey]
         |> consoleLog [str "Polling URL:"; publicUrl]
         |> setPollingAttemptsRef 0 in
    let (t, s3) := setInterval outputKey publicUrl s2 in
    setPollingIntervalRef (Some t) s3
  else s1.

(** After a render in which [lastUploadedKey] differs from its previous
    value, React runs the cleanup of the last effect (lines 293-295) and then
    the effect again.  The other dependencies are constants. *)
Definition sameKey (a b : option JSString) : bool :=
  match a, b with
  | None, None => true
  | Some x, Some y => eqString x y
  | _, _ => false
  end.

Definition commit (previousKey : option JSString) (s : State) : State :=
  if sameKey previousKey (lastUploadedKey s) then s
  else pollingEffect (stopPolling s).

(** *** Events

    One event is one uninterrupted run of JavaScript: a handler called by the
    user interface, a timer callback, or the code resumed after an await. *)
Inductive Event : Type :=
| FileChange (file : option File)
| ReaderLoadEnd (result : option JSString)
| ReaderError
| QualityInput (newQuality : float)
| IncrementQuality
| DecrementQuality
| DimensionInput (value : float) (type : JSString)
| UploadClick
| BrokerReply (flow : nat) (o : BrokerOutcome)
| TransferReply (flow : nat) (o : TransferOutcome)
| Tick (t : TimerId) (now : N)
| ProbeReply (p : nat) (o : ProbeOutcome) (now : N)
| ResetClick
| DownloadClick
| DownloadSettled (o : DownloadOutcome).

Definition findInterval (t : TimerId) (s : State) : option Interval :=
  find (fun iv => intervalId iv =? t) (intervals s).

Definition findProbe (p : nat) (s : State) : option Probe :=
  find (fun pr => probeId pr =? p) (probes s).

Definition findUpload (f : nat) (s : State) : option UploadFlow :=
  find (fun fl => flowId fl =? f) (uploads s).

Definition dropProbe (p : nat) (s : State) : State :=
  withProbes (filter (fun pr => negb (probeId pr =? p)) (probes s)) s.

Definition dropUpload (f : nat) (s : State) : State :=
  withUploads (filter (fun fl => negb (flowId fl =? f)) (uploads s)) s.

(** The handler's own run, before React renders.  [None]: the event cannot
    occur in [s] (the timer has been cleared, nothing awaits this reply). *)
Definition dispatch (s : State) (e : Event) : option State :=
  match e with
  | FileChange file => Some (handleFileChange file s)
  | ReaderLoadEnd result => Some (readerLoadEnd result s)
  | ReaderError => Some (readerError s)
  | QualityInput n => Some (handleQualityChange n s)
  | IncrementQuality => Some (incrementQuality s)
  | DecrementQuality => Some (decrementQuality s)
  | DimensionInput n type => Some (handleDimensionChange n type s)
  | UploadClick => Some (handleUpload s)
  | BrokerReply f o =>
      match findUpload f s with
      | Some fl =>
          match flowStage fl with
          | AwaitingBroker => Some (brokerContinuation fl o (dropUpload f s))
          | AwaitingTransfer _ _ => None
          end
      | None => None
      end
  | TransferReply f o =>
      match findUpload f s with
      | Some fl =>
          match flowStage fl with
          | AwaitingTransfer _ key => Some (transferContinuation key o (dropUpload f s))
          | AwaitingBroker => None
          end
      | None => None
      end
  | Tick t now =>
      match findInterval t s with
      | Some iv => Some (intervalCallback iv now s)
      | None => None
      end
  | ProbeReply p o now =>
      match findProbe p s with
      | Some pr => Some (probeContinuation pr o now (dropProbe p s))
      | None => None
      end
  | ResetClick => Some (resetClick s)
  | DownloadClick => Some (handleDownloadClick s)
  | DownloadSettled o => Some (downloadContinuation o s)
  end.

(** One event: the handler, then the render and the effect. *)
Definition handle (s : State) (e : Event) : option State :=
  option_map (commit (lastUploadedKey s)) (dispatch s e).

Fixpoint run (s : State) (tr : list Event) : option State :=
  match tr with
  | [] => Some s
  | e :: tr' =>
      match handle s e with
      | Some s' => run s' tr'
      | None => None
      end
  end.

(** The states the component can be in: any sequence of events from the
    mounted component.  Handlers are taken as callable at any time; what the
    rendered page lets the user do is [offered] below. *)
Inductive reachable : State -> Prop :=
| reachable_init : reachable initialState
| reachable_step s e s' : reachable s -> handle s e = Some s' -> reachable s'.

End Polling.

(** The value of line 27. *)
Definition sourceMaxPollingAttempts : nat := 15.

(** *** What the rendered page offers, lines 304-476

    The controls are rendered, and enabled, only in some states. *)
Definition offered (s : State) (e : Event) : bool :=
  let controls :=
    (negb (isLoading s) && negb (truthy (resizedImageUrl s))
     && match selectedFile s with Some _ => true | None => false end)%bool in
  let result := (truthy (resizedImageUrl s) && truthy (originalPreviewUrl s))%bool in
  match e with
  | FileChange _ =>
      (match selectedFile s with Some _ => false | None => true end
       && negb (isLoading s) && negb (truthy (resizedImageUrl s))
       && negb (truthy (originalPreviewUrl s)))%bool
  | QualityInput _ | DimensionInput _ _ | UploadClick => controls
  | IncrementQuality => (controls && negb (100 <=? quality s)%float)%bool
  | DecrementQuality => (controls && negb (quality s <=? 1)%float)%bool
  | ResetClick => result
  | DownloadClick => (result && negb (isLoading s))%bool
  | _ => true
  end.

(** ** getOriginalFilenameFromKey and the download name (lines 126-156) *)

(** [String.prototype.split] with a one-character separator: the pieces
    between the separators, so always at least one piece. *)
Fixpoint split (sep : CodeUnit) (s : JSString) : list JSString :=
  match s with
  | [] => [[]]
  | c :: r =>
      if (c =? sep)%N then [] :: split sep r
      else match split sep r with
           | part :: parts => (c :: part) :: parts
           | [] => [[c]]
           end
  end.

(** getOriginalFilenameFromKey, lines 126-132. *)
Definition getOriginalFilenameFromKey (key : option JSString) : JSString :=
  if negb (truthy key) then str "resized_image." ++ toLowerCase outputFormat
  else
    let k := match key with Some k => k | None => [] end in
    let parts := split slash k in
    if 1 <? List.length parts then last parts []
    else str "resized_" ++ k ++ str "." ++ toLowerCase outputFormat.

(** The [download] attribute handleDownloadClick gives its link, lines
    149-156, from the value of [lastUploadedKey]. *)
Definition downloadName (key : option JSString) : JSString :=
  let originalFilename := getOriginalFilenameFromKey key in
  str "resized_" ++ baseName originalFilename ++ str "." ++ toLowerCase outputFormat.

(** ** Vocabulary of the properties *)

(** [<digits>]: one or more ASCII digits. *)
Definition Digits (ds : JSString) : Prop :=
  ds <> [] /\ forallb isDigit ds = true.

(** Text without line terminators, which is what dot-star can match. *)
Definition LineFree (name : JSString) : Prop :=
  forallb (fun c => negb (isLineTerminator c)) name = true.

(** What may follow the matched text: the end of the key or a line
    terminator. *)
Definition AtLineEnd (rest : JSString) : Prop :=
  match rest with
  | [] => True
  | c :: _ => isLineTerminator c = true
  end.

Definition NoDot (name : JSString) : Prop :=
  forallb (fun c => negb (c =? dot)%N) name = true.

Definition newPrefix (q w h : JSString) : JSString :=
  str "q" ++ q ++ str "_w" ++ w ++ str "_h" ++ h.

Definition legacyPrefix (q : JSString) : JSString := str "quality" ++ q.

(** The new shape [q<digits>_w<digits>_h<digits>/<name>] and the legacy shape
    [quality<digits>/<name>], with the prefix carried through and the file
    segment [<name>]. *)
Definition NewShape (key prefix name : JSString) : Prop :=
  exists q w h rest,
    Digits q /\ Digits w /\ Digits h /\ prefix = newPrefix q w h /\
    LineFree name /\ AtLineEnd rest /\
    key = prefix ++ str "/" ++ name ++ rest.

Definition LegacyShape (key prefix name : JSString) : Prop :=
  exists q rest,
    Digits q /\ prefix = legacyPrefix q /\
    LineFree name /\ AtLineEnd rest /\
    key = prefix ++ str "/" ++ name ++ rest.

Definition Unrecognized (key : JSString) : Prop :=
  (forall prefix name, ~ NewShape key prefix name) /\
  (forall prefix name, ~ LegacyShape key prefix name).

(** The base name in the words of the specification: the file name with its
    trailing extension stripped.  [beforeLastDot] is the text in front of the
    last dot, when there is a dot; a name without a dot, or with nothing in
    front of its last dot, is its own base name. *)
Fixpoint beforeLastDot (name : JSString) : option JSString :=
  match name with
  | [] => None
  | c :: r =>
      match beforeLastDot r with
      | Some stem => Some (c :: stem)
      | None => if (c =? dot)%N then Some [] else None
      end
  end.

Definition baseNameOf (name : JSString) : JSString :=
  match beforeLastDot name with
  | Some (c :: stem) => c :: stem
  | _ => name
  end.

(** The result type the specification gives the derivation.  [getOutputKey]
    returns a string on every path (lines 105, 118 and 122), so seen through
    this type its result is always an [OutputLocation]. *)
Inductive Derivation : Type :=
| OutputLocation (location : JSString)
| ParseError (malformedKey : JSString).

Definition deriveOutputLocation (inputKey : JSString) : Derivation :=
  OutputLocation (fst (getOutputKey inputKey)).

(** The parameters of a job as the specification wants them: quality in
    [1, 100] and both dimensions at least 1. *)
Definition inRange (q w h : float) : Prop :=
  (1 <=? q)%float = true /\ (q <=? 100)%float = true /\
  (1 <=? w)%float = true /\ (1 <=? h)%float = true.

(** The current parameters, and those every suspended [handleUpload] call
    has put in its request, are in range. *)
Definition ParametersValid (s : State) : Prop :=
  inRange (quality s) (width s) (height s) /\
  Forall (fun fl => inRange (flowQuality fl) (flowWidth fl) (flowHeight fl)) (uploads s).

(** *** Vocabulary of the polling properties *)

Definition isTick (e : Event) : bool :=
  match e with Tick _ _ => true | _ => false end.

(** The events of the poll: timer ticks and probe responses. *)
Definition isPollEvent (e : Event) : bool :=
  match e with Tick _ _ | ProbeReply _ _ _ => true | _ => false end.

(** The probe found the artifact: line 269 takes the [ok] branch. *)
Definition probeFound (o : ProbeOutcome) : bool :=
  match o with
  | HeadResponse status => responseOk status
  | HeadRejected _ => false
  end.

(** A poll event in which no probe finds the artifact. *)
Definition noSuccess (e : Event) : bool :=
  match e with
  | Tick _ _ => true
  | ProbeReply _ o _ => negb (probeFound o)
  | _ => false
  end.

Definition ticks (tr : list Event) : nat := List.length (filter isTick tr).

(** The effect has just started a poll on timer [t]. *)
Definition freshPoll (s : State) (t : TimerId) : Prop :=
  pollingIntervalRef s = Some t /\ pollingAttemptsRef s = 0 /\
  exists key url,
    intervals s = [{| intervalId := t; intervalKey := key; intervalUrl := url |}].

(** The poll has ended in the timeout of lines 255-261. *)
Definition exhausted (s : State) : Prop :=
  pollingIntervalRef s = None /\ intervals s = [] /\ isLoading s = false /\
  uploadStatus s = str "Image processing timed out. Please try again.".

(** The live timers are exactly the timer [pollingIntervalRef] holds. *)
Definition timerInvariant (s : State) : Prop :=
  match pollingIntervalRef s with
  | None => intervals s = []
  | Some t => exists key url,
      intervals s = [{| intervalId := t; intervalKey := key; intervalUrl := url |}]
  end.

(** What a handler can do to the timers: nothing, or stop the poll. *)
Definition timersKeptOrStopped (s d : State) : Prop :=
  (intervals d = intervals s /\ pollingIntervalRef d = pollingIntervalRef s) \/
  (intervals d = [] /\ pollingIntervalRef d = None).

(** The invariant of the reachable states: the timer invariant; a poll runs
    only for a truthy [lastUploadedKey]; and no file is selected while a key
    is recorded. *)
Definition Inv (s : State) : Prop :=
  timerInvariant s /\
  (pollingIntervalRef s <> None -> truthy (lastUploadedKey s) = true) /\
  (lastUploadedKey s <> None -> selectedFile s = None).

(** A run of the poll in which every response arrives before the next tick:
    tick, response, tick, response, ...  Each entry gives the outcome of a
    probe and the times of its tick and of its response; the probe of the
    first tick gets the request handle [h]. *)
Fixpoint sequentialRun (t : TimerId) (h : nat) (os : list (ProbeOutcome * N * N))
  : list Event :=
  match os with
  | [] => []
  | (o, sent, received) :: os' =>
      Tick t sent :: ProbeReply h o received :: sequentialRun t (S h) os'
  end.

(** The user starts a new job, selects a new file, or resets. *)
Definition startsOver (s : State) (e : Event) : bool :=
  match e with
  | UploadClick => match selectedFile s with Some _ => true | None => false end
  | FileChange (Some _) => true
  | ResetClick => true
  | _ => false
  end.

(** A sample session: a file is selected and uploaded, and the poll for
    its resized version starts on timer 1. *)
Definition sampleFile : File :=
  {| fileName := str "a.png"; fileType := str "image/png" |}.

Definition sampleUpload : list Event :=
  [FileChange (Some sampleFile);
   UploadClick;
   BrokerReply 0 (BrokerOk (str "https://upload.example/put") (str "q85_w128_h128/a.png"));
   TransferReply 0 (TransferResponse 200 (str "OK") [])].

Definition sampleUrl : JSString :=
  str "https://vyomuchat-image-resizer-output.s3.eu-north-1.amazonaws.com/resized-q85_w128_h128/a.jpeg".

(** The states of the sample session: the poll just started; one probe in
    flight; that probe answered with success. *)
Definition stateAfter (tr : list Event) : State :=
  match run sourceMaxPollingAttempts initialState tr with
  | Some s => s
  | None => initialState
  end.

Definition samplePollState : State := Eval vm_compute in stateAfter sampleUpload.

Definition sampleProbingState : State :=
  Eval vm_compute in stateAfter (sampleUpload ++ [Tick 1 1000]).

Definition sampleFoundState : State :=
  Eval vm_compute in
    stateAfter (sampleUpload ++ [Tick 1 1000; ProbeReply 2 (HeadResponse 200) 1500]).

(** *** Vocabulary of the further properties *)

Definition NoSlash (name : JSString) : Prop :=
  forallb (fun c => negb (c =? slash)%N) name = true.


(** The events the user causes through the page. *)
Definition isUserEvent (e : Event) : bool :=
  match e with
  | FileChange _ | QualityInput _ | IncrementQuality | DecrementQuality
  | DimensionInput _ _ | UploadClick | ResetClick | DownloadClick => true
  | _ => false
  end.

(** The running poll probes the location derived from the recorded key. *)
Definition pollTargetsKey (s : State) : Prop :=
  forall t, pollingIntervalRef s = Some t ->
    exists key : JSString,
      key <> [] /\ lastUploadedKey s = Some key /\
      intervals s = [{| intervalId := t; intervalKey := fst (getOutputKey key);
                        intervalUrl := publicUrlOf (fst (getOutputKey key)) |}].

(** A request for a derived location of the output bucket, with its time
    stamp. *)
Definition derivedRequest (request : JSString) : Prop :=
  exists (key : JSString) (now : N),
    key <> [] /\
    request = publicUrlOf (fst (getOutputKey key)) ++ str "?t=" ++ showN now.


Definition sampleAwaitingTransfer : State :=
  Eval vm_compute in stateAfter (firstn 3 sampleUpload).


Definition samplePreviewedUpload : list Event :=
  FileChange (Some sampleFile) :: ReaderLoadEnd (Some (str "data:image/png;base64,iVBORw0KGgo="))
    :: tl sampleUpload.

Definition sampleLastAttemptState : State :=
  Eval vm_compute in
    stateAfter (samplePreviewedUpload ++ List.map (Tick 1) (repeat 0%N 15)).

(** The first line of a text: the text in front of its first line
    terminator, the whole text when it has none. *)
Fixpoint firstLine (text : JSString) : JSString :=
  match text with
  | [] => []
  | c :: r => if isLineTerminator c then [] else c :: firstLine r
  end.

(** A prefix of the new or of the legacy shape. *)
Definition recognizedPrefix (prefix : JSString) : Prop :=
  (exists q w h, Digits q /\ Digits w /\ Digits h /\ prefix = newPrefix q w h) \/
  (exists q, Digits q /\ prefix = legacyPrefix q).

(** A run through the page: every event of the run occurs in a state in
    which the rendered page offers it. *)
Fixpoint offeredRun (maxPollingAttempts : nat) (s : State) (tr : list Event) : bool :=
  match tr with
  | [] => true
  | e :: tr' =>
      (offered s e &&
       match handle maxPollingAttempts s e with
       | Some s' => offeredRun maxPollingAttempts s' tr'
       | None => false
       end)%bool
  end.

(** A session with two jobs.  The first probe of the first job is slow; its
    second probe finds the image; the user then resets, selects a second file
    and uploads it, and the poll of the second job starts on timer 5 while
    the first probe of the first job is still in flight. *)
Definition sampleSecondFile : File :=
  {| fileName := str "b.png"; fileType := str "image/png" |}.

Definition sampleTwoJobs : list Event :=
  samplePreviewedUpload ++
  [Tick 1 2000; Tick 1 4000; ProbeReply 3 (HeadResponse 200) 4100;
   ResetClick;
   FileChange (Some sampleSecondFile);
   ReaderLoadEnd (Some (str "data:image/png;base64,iVBORw0KGgo="));
   UploadClick;
   BrokerReply 4 (BrokerOk (str "https://upload.example/put") (str "q85_w128_h128/b.png"));
   TransferReply 4 (TransferResponse 200 (str "OK") [])].

(** * Properties of the key derivation *)

Section Matching.

Lemma span_app (p : CodeUnit -> bool) (m rest : JSString) :
  forallb p m = true ->
  match rest with [] => True | c :: _ => p c = false end ->
  span p (m ++ rest) = (m, rest).
Proof.
  induction m as [|c m IH]; intros Hm Hr.
  - destruct rest as [|c r]; [reflexivity|]. cbn. now rewrite Hr.
  - cbn in Hm |- *. apply andb_prop in Hm as [Hc Hm].
    rewrite Hc, IH by assumption. reflexivity.
Qed.

Lemma span_inv (p : CodeUnit -> bool) (s m rest : JSString) :
  span p s = (m, rest) ->
  s = m ++ rest /\ forallb p m = true /\
  match rest with [] => True | c :: _ => p c = false end.
Proof.
  revert m rest. induction s as [|c s IH]; intros m rest H.
  - cbn in H. inversion H; subst. auto.
  - cbn in H. destruct (p c) eqn:Hc.
    + destruct (span p s) as [m' r'] eqn:E. inversion H; subst.
      destruct (IH _ _ eq_refl) as (-> & Hm & Hr).
      cbn. rewrite Hc. auto.
    + inversion H; subst. cbn. auto.
Qed.

Lemma lit_app (l rest : JSString) : lit l (l ++ rest) = Some (l, rest).
Proof.
  induction l as [|c l IH]; [reflexivity|].
  cbn. now rewrite N.eqb_refl, IH.
Qed.

Lemma lit_inv (l s m rest : JSString) :
  lit l s = Some (m, rest) -> m = l /\ s = l ++ rest.
Proof.
  revert s m rest. induction l as [|c l IH]; intros s m rest H.
  - cbn in H. inversion H; auto.
  - destruct s as [|x s]; [discriminate|]. cbn in H.
    destruct (N.eqb_spec x c); [|discriminate]. subst x.
    destruct (lit l s) as [[m' r']|] eqn:E; [|discriminate].
    inversion H; subst. destruct (IH _ _ _ E) as [-> ->]. auto.
Qed.

Lemma digits1_app (d rest : JSString) :
  Digits d ->
  match rest with [] => True | c :: _ => isDigit c = false end ->
  digits1 (d ++ rest) = Some (d, rest).
Proof.
  intros [Hne Hd] Hr. unfold digits1. rewrite span_app by assumption.
  destruct d; [contradiction|reflexivity].
Qed.

Lemma digits1_inv (s d rest : JSString) :
  digits1 s = Some (d, rest) ->
  Digits d /\ s = d ++ rest /\
  match rest with [] => True | c :: _ => isDigit c = false end.
Proof.
  unfold digits1. destruct (span isDigit s) as [m r] eqn:E. intros H.
  apply span_inv in E as (-> & Hm & Hr).
  destruct m as [|c m]; [discriminate|]. inversion H; subst.
  repeat split; auto. discriminate.
Qed.

Lemma dotStar_app (name rest : JSString) :
  LineFree name -> AtLineEnd rest -> dotStar (name ++ rest) = Some (name, rest).
Proof.
  intros Hn Hr. unfold dotStar. rewrite span_app; auto.
  destruct rest; auto. cbn in Hr. now rewrite Hr.
Qed.

Lemma dotStar_inv (s name rest : JSString) :
  dotStar s = Some (name, rest) ->
  s = name ++ rest /\ LineFree name /\ AtLineEnd rest.
Proof.
  unfold dotStar. intros H. inversion H as [E]. apply span_inv in E as (-> & Hm & Hr).
  repeat split; auto. destruct rest; cbn; auto.
  now apply negb_false_iff in Hr.
Qed.

End Matching.

(** The two patterns accept exactly the two shapes, and capture the prefix
    and the file segment. *)

Lemma newPrefixPattern_app (q w h tail : JSString) :
  Digits q -> Digits w -> Digits h ->
  match tail with [] => True | c :: _ => isDigit c = false end ->
  newPrefixPattern (newPrefix q w h ++ tail) = Some (newPrefix q w h, tail).
Proof.
  intros Hq Hw Hh Ht. unfold newPrefixPattern, newPrefix, andThen.
  rewrite <- !app_assoc.
  rewrite lit_app, (digits1_app _ Hq) by reflexivity.
  rewrite lit_app, (digits1_app _ Hw) by reflexivity.
  now rewrite lit_app, (digits1_app _ Hh) by assumption.
Qed.

Lemma newPrefixPattern_inv (s prefix tail : JSString) :
  newPrefixPattern s = Some (prefix, tail) ->
  exists q w h, Digits q /\ Digits w /\ Digits h /\
                prefix = newPrefix q w h /\ s = prefix ++ tail.
Proof.
  unfold newPrefixPattern, andThen. intros H.
  destruct (lit (str "q") s) as [[m1 r1]|] eqn:E1; [|discriminate].
  destruct (digits1 r1) as [[q r2]|] eqn:E2; [|discriminate].
  destruct (lit (str "_w") r2) as [[m3 r3]|] eqn:E3; [|discriminate].
  destruct (digits1 r3) as [[w r4]|] eqn:E4; [|discriminate].
  destruct (lit (str "_h") r4) as [[m5 r5]|] eqn:E5; [|discriminate].
  destruct (digits1 r5) as [[h r6]|] eqn:E6; [|discriminate].
  apply lit_inv in E1 as [-> ->], E3 as [-> ->], E5 as [-> ->].
  apply digits1_inv in E2 as (Hq & -> & _), E4 as (Hw & -> & _), E6 as (Hh & -> & _).
  inversion H; subst. exists q, w, h. unfold newPrefix.
  repeat split; try apply Hq; try apply Hw; try apply Hh;
    cbn; repeat (rewrite <- app_assoc; cbn); reflexivity.
Qed.

Lemma oldPrefixPattern_app (q tail : JSString) :
  Digits q ->
  match tail with [] => True | c :: _ => isDigit c = false end ->
  oldPrefixPattern (legacyPrefix q ++ tail) = Some (legacyPrefix q, tail).
Proof.
  intros Hq Ht. unfold oldPrefixPattern, legacyPrefix, andThen.
  rewrite <- !app_assoc. now rewrite lit_app, (digits1_app _ Hq) by assumption.
Qed.

Lemma oldPrefixPattern_inv (s prefix tail : JSString) :
  oldPrefixPattern s = Some (prefix, tail) ->
  exists q, Digits q /\ prefix = legacyPrefix q /\ s = prefix ++ tail.
Proof.
  unfold oldPrefixPattern, andThen. intros H.
  destruct (lit (str "quality") s) as [[m1 r1]|] eqn:E1; [|discriminate].
  destruct (digits1 r1) as [[q r2]|] eqn:E2; [|discriminate].
  apply lit_inv in E1 as [-> ->]. apply digits1_inv in E2 as (Hq & -> & _).
  inversion H; subst. exists q. unfold legacyPrefix.
  repeat split; try apply Hq; cbn; repeat (rewrite <- app_assoc; cbn); reflexivity.
Qed.

Lemma matchAnchored_app (P : Matcher) (prefix name rest : JSString) :
  P (prefix ++ str "/" ++ name ++ rest) = Some (prefix, str "/" ++ name ++ rest) ->
  LineFree name -> AtLineEnd rest ->
  matchAnchored P (prefix ++ str "/" ++ name ++ rest) = Some (prefix, name).
Proof.
  intros HP Hn Hr. unfold matchAnchored. rewrite HP.
  change (str "/" ++ name ++ rest) with ([slash] ++ name ++ rest).
  now rewrite lit_app, dotStar_app.
Qed.

Lemma matchAnchored_inv (P : Matcher) (s prefix name : JSString) :
  matchAnchored P s = Some (prefix, name) ->
  exists tail rest,
    P s = Some (prefix, str "/" ++ tail) /\ tail = name ++ rest /\
    LineFree name /\ AtLineEnd rest.
Proof.
  unfold matchAnchored. intros H.
  destruct (P s) as [[g1 r]|] eqn:EP; [|discriminate].
  destruct (lit [slash] r) as [[m r']|] eqn:EL; [|discriminate].
  destruct (dotStar r') as [[g2 rest]|] eqn:ED; [|discriminate].
  inversion H; subst. apply lit_inv in EL as [-> ->].
  apply dotStar_inv in ED as (-> & Hn & Hr).
  exists (name ++ rest), rest. auto.
Qed.

Lemma matchAnchored_new (key prefix name : JSString) :
  matchAnchored newPrefixPattern key = Some (prefix, name) <-> NewShape key prefix name.
Proof.
  split.
  - intros H. apply matchAnchored_inv in H as (tail & rest & HP & -> & Hn & Hr).
    apply newPrefixPattern_inv in HP as (q & w & h & Hq & Hw & Hh & -> & ->).
    exists q, w, h, rest. auto 10.
  - intros (q & w & h & rest & Hq & Hw & Hh & -> & Hn & Hr & ->).
    apply matchAnchored_app; auto.
    now apply newPrefixPattern_app.
Qed.

Lemma matchAnchored_old (key prefix name : JSString) :
  matchAnchored oldPrefixPattern key = Some (prefix, name) <-> LegacyShape key prefix name.
Proof.
  split.
  - intros H. apply matchAnchored_inv in H as (tail & rest & HP & -> & Hn & Hr).
    apply oldPrefixPattern_inv in HP as (q & Hq & -> & ->).
    exists q, rest. auto 10.
  - intros (q & rest & Hq & -> & Hn & Hr & ->).
    apply matchAnchored_app; auto.
    now apply oldPrefixPattern_app.
Qed.

(** A legacy key is never taken for a new one: after the [q] comes a [u],
    not a digit. *)
Lemma legacy_not_new (key prefix name : JSString) :
  LegacyShape key prefix name -> matchAnchored newPrefixPattern key = None.
Proof.
  intros (q & rest & _ & -> & _ & _ & ->). reflexivity.
Qed.

(** [baseName], computed with [lastIndexOf] and [substring], is the base
    name of the specification. *)

Lemma lastIndexOf_from_spec (s : JSString) (i found : Z) :
  lastIndexOf_from i found dot s =
  match beforeLastDot s with
  | Some stem => (i + Z.of_nat (List.length stem))%Z
  | None => found
  end.
Proof.
  revert i found. induction s as [|c s IH]; intros i found; [reflexivity|].
  cbn [lastIndexOf_from beforeLastDot]. rewrite IH.
  destruct (beforeLastDot s) as [stem|].
  - cbn [List.length]. lia.
  - destruct (c =? dot)%N; cbn [List.length]; lia.
Qed.

Lemma beforeLastDot_prefix (s stem : JSString) :
  beforeLastDot s = Some stem -> firstn (List.length stem) s = stem.
Proof.
  revert stem. induction s as [|c s IH]; intros stem H; [discriminate|].
  cbn in H. destruct (beforeLastDot s) as [stem'|].
  - inversion H; subst. cbn. now rewrite IH.
  - destruct (c =? dot)%N; inversion H. reflexivity.
Qed.

Lemma beforeLastDot_length (s stem : JSString) :
  beforeLastDot s = Some stem -> List.length stem < List.length s.
Proof.
  revert stem. induction s as [|c s IH]; intros stem H; [discriminate|].
  cbn in H. destruct (beforeLastDot s) as [stem'|].
  - inversion H; subst. cbn. specialize (IH _ eq_refl). lia.
  - destruct (c =? dot)%N; inversion H. cbn. lia.
Qed.

Lemma substring_prefix (s : JSString) (n : nat) :
  n <= List.length s -> substring s 0 (Z.of_nat n) = firstn n s.
Proof.
  intros Hn. unfold substring, clampIndex.
  replace (Z.to_nat (Z.min (Z.max 0 0) (Z.of_nat (List.length s)))) with 0 by lia.
  replace (Z.to_nat (Z.min (Z.max (Z.of_nat n) 0) (Z.of_nat (List.length s)))) with n by lia.
  cbn [Nat.min Nat.max skipn]. now rewrite Nat.sub_0_r.
Qed.

Lemma substring_to_minus_one (s : JSString) : substring s 0 (-1) = [].
Proof.
  unfold substring, clampIndex.
  replace (Z.to_nat (Z.min (Z.max 0 0) (Z.of_nat (List.length s)))) with 0 by lia.
  replace (Z.to_nat (Z.min (Z.max (-1) 0) (Z.of_nat (List.length s)))) with 0 by lia.
  reflexivity.
Qed.

Lemma baseName_spec (name : JSString) : baseName name = baseNameOf name.
Proof.
  unfold baseName, baseNameOf, lastIndexOf. rewrite lastIndexOf_from_spec.
  destruct (beforeLastDot name) as [stem|] eqn:E.
  - rewrite Z.add_0_l, substring_prefix, (beforeLastDot_prefix _ E).
    + destruct stem; reflexivity.
    + apply beforeLastDot_length in E. lia.
  - now rewrite substring_to_minus_one.
Qed.

Lemma beforeLastDot_NoDot (name : JSString) : NoDot name -> beforeLastDot name = None.
Proof.
  unfold NoDot. induction name as [|c name IH]; [reflexivity|].
  cbn. intros H. apply andb_prop in H as [Hc Hn]. rewrite (IH Hn).
  apply negb_true_iff in Hc. now rewrite Hc.
Qed.

Lemma beforeLastDot_app (stem ext : JSString) :
  NoDot ext -> beforeLastDot (stem ++ dot :: ext) = Some stem.
Proof.
  intros He. induction stem as [|c stem IH].
  - cbn. now rewrite (beforeLastDot_NoDot He).
  - cbn [app beforeLastDot]. now rewrite IH.
Qed.

(** The three cases of the base name. *)
Lemma baseNameOf_stem (stem ext : JSString) :
  stem <> [] -> NoDot ext -> baseNameOf (stem ++ dot :: ext) = stem.
Proof.
  intros Hs He. unfold baseNameOf. rewrite beforeLastDot_app by assumption.
  destruct stem; [contradiction|reflexivity].
Qed.

Lemma baseNameOf_NoDot (name : JSString) : NoDot name -> baseNameOf name = name.
Proof. intros H. unfold baseNameOf. now rewrite beforeLastDot_NoDot. Qed.

Lemma baseNameOf_leading_dot (ext : JSString) :
  NoDot ext -> baseNameOf (dot :: ext) = dot :: ext.
Proof.
  intros H. unfold baseNameOf.
  change (dot :: ext) with ([] ++ dot :: ext). now rewrite beforeLastDot_app.
Qed.

Lemma baseNameOf_empty (name : JSString) : baseNameOf name = [] <-> name = [].
Proof.
  unfold baseNameOf. split; [|now intros ->].
  destruct (beforeLastDot name) as [[|c stem]|]; auto; discriminate.
Qed.

(** What [getOutputKey] returns on each of its three paths. *)
Lemma getOutputKey_new_shape (key prefix name : JSString) :
  NewShape key prefix name ->
  getOutputKey key =
  (str "resized-" ++ prefix ++ str "/" ++ baseNameOf name ++ str "." ++ outputFormat, []).
Proof.
  intros H. apply matchAnchored_new in H. unfold getOutputKey.
  now rewrite H, baseName_spec.
Qed.

Lemma getOutputKey_legacy_shape (key prefix name : JSString) :
  LegacyShape key prefix name ->
  getOutputKey key =
  (str "resized-" ++ prefix ++ str "/" ++ baseNameOf name ++ str "." ++ outputFormat,
   [ConsoleWarn [str "Detected old key format, generating compatible output key."]]).
Proof.
  intros H. unfold getOutputKey. rewrite (legacy_not_new H).
  apply matchAnchored_old in H. now rewrite H, baseName_spec.
Qed.

Lemma getOutputKey_unrecognized (key : JSString) :
  Unrecognized key ->
  getOutputKey key =
  (str "resized-unknown/" ++ key,
   [ConsoleError [str "Could not parse prefix from base key:"; key]]).
Proof.
  intros [Hnew Hold]. unfold getOutputKey.
  destruct (matchAnchored newPrefixPattern key) as [[p n]|] eqn:E1.
  { apply matchAnchored_new in E1. now apply Hnew in E1. }
  destruct (matchAnchored oldPrefixPattern key) as [[p n]|] eqn:E2.
  { apply matchAnchored_old in E2. now apply Hold in E2. }
  reflexivity.
Qed.

(** The examples of the specification. *)
Example getOutputKey_new :
  fst (getOutputKey (str "q42_w100_h100/photo.png")) = str "resized-q42_w100_h100/photo.jpeg".
Proof. reflexivity. Qed.

Example getOutputKey_legacy :
  fst (getOutputKey (str "quality42/photo.png")) = str "resized-quality42/photo.jpeg".
Proof. reflexivity. Qed.

Example getOutputKey_garbage :
  getOutputKey (str "garbage") =
  (str "resized-unknown/garbage",
   [ConsoleError [str "Could not parse prefix from base key:"; str "garbage"]]).
Proof. reflexivity. Qed.

Example getOutputKey_dotfile :
  fst (getOutputKey (str "q1_w2_h3/.bashrc")) = str "resized-q1_w2_h3/.bashrc.jpeg".
Proof. reflexivity. Qed.

Example getOutputKey_empty_name :
  fst (getOutputKey (str "q1_w2_h3/")) = str "resized-q1_w2_h3/.jpeg".
Proof. reflexivity. Qed.

(** The patterns have no end anchor and the dot matches no line terminator:
    the file segment ends at the first line feed. *)
Example getOutputKey_line_feed :
  fst (getOutputKey (str "quality1/a" ++ [10%N] ++ str "b.png")) = str "resized-quality1/a.jpeg".
Proof. reflexivity. Qed.

Lemma garbage_unrecognized : Unrecognized (str "garbage").
Proof.
  split; intros prefix name H.
  - apply matchAnchored_new in H. discriminate H.
  - apply matchAnchored_old in H. discriminate H.
Qed.

(** C1, as the code has it.  For every input key that matches neither the
    new shape nor the legacy shape, [getOutputKey] returns the fallback
    location [resized-unknown/<key>], and reports the key with
    [console.error]; it returns no error value. *)
Theorem unrecognized_key_falls_back (key : JSString) :
  Unrecognized key ->
  getOutputKey key =
    (str "resized-unknown/" ++ key,
     [ConsoleError [str "Could not parse prefix from base key:"; key]])
  /\ deriveOutputLocation key = OutputLocation (str "resized-unknown/" ++ key).
Proof.
  intros H. unfold deriveOutputLocation.
  rewrite (getOutputKey_unrecognized H). split; reflexivity.
Qed.

Lemma unrecognized_key_falls_back_witness :
  Unrecognized (str "garbage") /\
  getOutputKey (str "garbage") =
    (str "resized-unknown/" ++ str "garbage",
     [ConsoleError [str "Could not parse prefix from base key:"; str "garbage"]])
  /\ deriveOutputLocation (str "garbage")
     = OutputLocation (str "resized-unknown/" ++ str "garbage").
Proof.
  split; [exact garbage_unrecognized|].
  apply (@unrecognized_key_falls_back (str "garbage")). exact garbage_unrecognized.
Defined.

(** C1, as the specification states it, fails: the key [garbage] matches
    neither shape, and the derivation yields the location string
    [resized-unknown/garbage], not a [ParseError]. *)
Lemma unrecognized_key_is_no_ParseError :
  Unrecognized (str "garbage") /\
  deriveOutputLocation (str "garbage") = OutputLocation (str "resized-unknown/garbage") /\
  deriveOutputLocation (str "garbage") <> ParseError (str "garbage").
Proof.
  split; [exact garbage_unrecognized|]. split; [reflexivity|discriminate].
Qed.

(** C5.  With the configured output format [jpeg], the new-shape key
    [q85_w128_h128/a.png] is mapped to [resized-q85_w128_h128/a.jpeg]. *)
Theorem end_to_end_output_location :
  outputFormat = str "jpeg" /\
  fst (getOutputKey (str "q85_w128_h128/a.png")) = str "resized-q85_w128_h128/a.jpeg".
Proof.
  split; [reflexivity|].
  assert (H : NewShape (str "q85_w128_h128/a.png") (newPrefix (str "85") (str "128") (str "128"))
                       (str "a" ++ dot :: str "png")).
  { exists (str "85"), (str "128"), (str "128"), [].
    repeat split; try discriminate; reflexivity. }
  rewrite (getOutputKey_new_shape H), baseNameOf_stem by (discriminate || reflexivity).
  reflexivity.
Qed.

(** The dot-star group takes the first line of the text after the slash. *)
Lemma firstLine_split (text : JSString) :
  exists rest,
    text = firstLine text ++ rest /\ LineFree (firstLine text) /\ AtLineEnd rest.
Proof.
  induction text as [|c r (rest & E & Hl & Hr)].
  - exists []. repeat split.
  - cbn [firstLine]. destruct (isLineTerminator c) eqn:Ec.
    + exists (c :: r). repeat split. exact Ec.
    + exists rest. split; [cbn; congruence|]. split; [|exact Hr].
      unfold LineFree in *. cbn. now rewrite Ec.
Qed.

Lemma firstLine_app (name rest : JSString) :
  LineFree name -> AtLineEnd rest -> firstLine (name ++ rest) = name.
Proof.
  unfold LineFree. induction name as [|c name IH]; intros Hn Hr.
  - destruct rest as [|c rest]; [reflexivity|]. cbn in *. now rewrite Hr.
  - cbn in Hn. apply andb_prop in Hn as [Hc Hn]. apply negb_true_iff in Hc.
    cbn. rewrite Hc. f_equal. now apply IH.
Qed.

Lemma firstLine_LineFree (text : JSString) : LineFree text -> firstLine text = text.
Proof.
  intros H. rewrite <- (app_nil_r text) at 1. now apply firstLine_app.
Qed.

Lemma firstLine_nil (text : JSString) :
  firstLine text = [] <->
  text = [] \/ exists c r, text = c :: r /\ isLineTerminator c = true.
Proof.
  destruct text as [|c r]; cbn.
  - split; auto.
  - destruct (isLineTerminator c) eqn:Ec; split.
    + intros _. right. exists c, r. auto.
    + reflexivity.
    + discriminate.
    + intros [H|(c' & r' & H & Hc)]; [discriminate|].
      inversion H; subst. congruence.
Qed.

Lemma legacy_key_shape (q text : JSString) :
  Digits q ->
  LegacyShape (legacyPrefix q ++ str "/" ++ text) (legacyPrefix q) (firstLine text).
Proof.
  intros Hq. destruct (firstLine_split text) as (rest & E & Hl & Hr).
  exists q, rest. repeat split; try assumption; try apply Hq. now rewrite <- E.
Qed.

Lemma new_key_shape (q w h text : JSString) :
  Digits q -> Digits w -> Digits h ->
  NewShape (newPrefix q w h ++ str "/" ++ text) (newPrefix q w h) (firstLine text).
Proof.
  intros Hq Hw Hh. destruct (firstLine_split text) as (rest & E & Hl & Hr).
  exists q, w, h, rest. repeat split; try assumption; try apply Hq; try apply Hw;
    try apply Hh. now rewrite <- E.
Qed.

Lemma recognized_key_shape (prefix text : JSString) :
  recognizedPrefix prefix ->
  NewShape (prefix ++ str "/" ++ text) prefix (firstLine text) \/
  LegacyShape (prefix ++ str "/" ++ text) prefix (firstLine text).
Proof.
  intros [(q & w & h & Hq & Hw & Hh & ->)|(q & Hq & ->)].
  - left. now apply new_key_shape.
  - right. now apply legacy_key_shape.
Qed.

(** C8, as the code has it.  For every key [quality<digits>/<text>] the
    derivation succeeds, with one warning, and gives
    [resized-quality<digits>/<baseName>.<outputFormat>], where [<baseName>]
    is the first line of [<text>] without its trailing extension: the name
    the pattern captures ends at the first line terminator, and what follows
    is dropped.  When [<text>] has no line terminator, [<baseName>] is
    [<text>] without its trailing extension.  A new-shape key with the same
    [<text>] gets the same base name and extension, only the prefix
    differs. *)
Theorem legacy_key_derivation (q text : JSString) :
  Digits q ->
  getOutputKey (str "quality" ++ q ++ str "/" ++ text)
    = (str "resized-quality" ++ q ++ str "/" ++ baseNameOf (firstLine text)
         ++ str "." ++ outputFormat,
       [ConsoleWarn [str "Detected old key format, generating compatible output key."]])
  /\ (LineFree text ->
      fst (getOutputKey (str "quality" ++ q ++ str "/" ++ text))
        = str "resized-quality" ++ q ++ str "/" ++ baseNameOf text ++ str "." ++ outputFormat)
  /\ forall q' w h, Digits q' -> Digits w -> Digits h ->
       fst (getOutputKey (newPrefix q' w h ++ str "/" ++ text))
         = str "resized-" ++ newPrefix q' w h ++ str "/" ++ baseNameOf (firstLine text)
             ++ str "." ++ outputFormat.
Proof.
  intros Hq.
  assert (E : getOutputKey (str "quality" ++ q ++ str "/" ++ text)
              = (str "resized-quality" ++ q ++ str "/" ++ baseNameOf (firstLine text)
                   ++ str "." ++ outputFormat,
                 [ConsoleWarn
                    [str "Detected old key format, generating compatible output key."]])).
  { pose proof (getOutputKey_legacy_shape (legacy_key_shape text Hq)) as H.
    unfold legacyPrefix in H. rewrite <- !app_assoc in H. exact H. }
  split; [exact E|]. split.
  - intros Hl. rewrite E. cbn [fst]. now rewrite (firstLine_LineFree Hl).
  - intros q' w h Hq' Hw Hh.
    now rewrite (getOutputKey_new_shape (new_key_shape text Hq' Hw Hh)).
Qed.

Lemma digits_42 : Digits (str "42").
Proof. split; [discriminate|reflexivity]. Qed.

Lemma legacy_key_derivation_witness :
  Digits (str "42") /\ LineFree (str "photo.png") /\
  fst (getOutputKey (str "quality" ++ str "42" ++ str "/" ++ str "photo.png"))
    = str "resized-quality" ++ str "42" ++ str "/" ++ baseNameOf (str "photo.png")
        ++ str "." ++ outputFormat
  /\ forall q' w h, Digits q' -> Digits w -> Digits h ->
       fst (getOutputKey (newPrefix q' w h ++ str "/" ++ str "photo.png"))
         = str "resized-" ++ newPrefix q' w h ++ str "/"
             ++ baseNameOf (firstLine (str "photo.png")) ++ str "." ++ outputFormat.
Proof.
  split; [exact digits_42|]. split; [reflexivity|].
  destruct (@legacy_key_derivation (str "42") (str "photo.png") digits_42)
    as (_ & Hline & Hnew).
  split; [exact (Hline eq_refl)|exact Hnew].
Defined.

(** C8, as stated, fails on a name with a line terminator.  In the key
    [quality1/a<LF>b.png] the name after the slash is [a<LF>b.png] and its
    base name is [a<LF>b], but the derivation gives [resized-quality1/a.jpeg]:
    the pattern has no end anchor and its dot matches no line terminator.
    The key [quality1/a<LF>c.gif], with another base name, gets the same
    output key. *)
Lemma legacy_name_cut_at_line_feed :
  baseNameOf (str "a" ++ 10%N :: str "b.png") = str "a" ++ 10%N :: str "b" /\
  fst (getOutputKey (str "quality1/" ++ str "a" ++ 10%N :: str "b.png"))
    = str "resized-quality1/a.jpeg" /\
  fst (getOutputKey (str "quality1/" ++ str "a" ++ 10%N :: str "b.png"))
    <> str "resized-quality1/" ++ baseNameOf (str "a" ++ 10%N :: str "b.png") ++ str ".jpeg" /\
  baseNameOf (str "a" ++ 10%N :: str "c.gif") <> baseNameOf (str "a" ++ 10%N :: str "b.png") /\
  fst (getOutputKey (str "quality1/" ++ str "a" ++ 10%N :: str "c.gif"))
    = fst (getOutputKey (str "quality1/" ++ str "a" ++ 10%N :: str "b.png")).
Proof.
  split; [reflexivity|]. split; [reflexivity|].
  split; [vm_compute; discriminate|]. split; [vm_compute; discriminate|reflexivity].
Qed.

(** C10, as the code has it.  For a key [<prefix>/<text>] of either shape
    the file segment is the first line of [<text>]: the text after the slash
    up to its first line terminator, all of it when it has none.  When that
    segment has no dot, or has nothing in front of its last dot, the whole
    segment is the base name and the result is
    [resized-<prefix>/<segment>.<outputFormat>].  The base name is empty
    exactly when the segment is empty, which is when the key ends right
    after the slash or a line terminator follows the slash. *)
Theorem dotless_segment_is_base_name (prefix text : JSString) :
  recognizedPrefix prefix ->
  NoDot (firstLine text) \/ (exists ext, firstLine text = dot :: ext /\ NoDot ext) ->
  (NewShape (prefix ++ str "/" ++ text) prefix (firstLine text) \/
   LegacyShape (prefix ++ str "/" ++ text) prefix (firstLine text)) /\
  baseName (firstLine text) = firstLine text /\
  fst (getOutputKey (prefix ++ str "/" ++ text))
    = str "resized-" ++ prefix ++ str "/" ++ firstLine text ++ str "." ++ outputFormat /\
  (baseName (firstLine text) = [] <->
   text = [] \/ exists c r, text = c :: r /\ isLineTerminator c = true) /\
  (LineFree text -> firstLine text = text).
Proof.
  intros Hp Hseg. pose proof (recognized_key_shape text Hp) as Hshape.
  assert (Hb : baseNameOf (firstLine text) = firstLine text).
  { destruct Hseg as [H|(ext & -> & H)].
    - now apply baseNameOf_NoDot.
    - now apply baseNameOf_leading_dot. }
  split; [exact Hshape|]. rewrite baseName_spec, Hb.
  split; [reflexivity|]. split; [|split].
  - destruct Hshape as [H|H].
    + now rewrite (getOutputKey_new_shape H), Hb.
    + now rewrite (getOutputKey_legacy_shape H), Hb.
  - apply firstLine_nil.
  - apply firstLine_LineFree.
Qed.

(** For every file segment, with or without dots, the base name is empty
    only when the segment is. *)
Lemma baseName_empty (segment : JSString) : baseName segment = [] <-> segment = [].
Proof. rewrite baseName_spec. apply baseNameOf_empty. Qed.

Lemma new_shape_bashrc :
  NewShape (str "q1_w2_h3/.bashrc") (str "q1_w2_h3") (str ".bashrc").
Proof.
  exists (str "1"), (str "2"), (str "3"), [].
  repeat split; try discriminate; reflexivity.
Qed.

Lemma bashrc_prefix_recognized : recognizedPrefix (str "q1_w2_h3").
Proof.
  left. exists (str "1"), (str "2"), (str "3").
  repeat split; try discriminate; reflexivity.
Qed.

Lemma dotless_segment_is_base_name_witness :
  recognizedPrefix (str "q1_w2_h3") /\
  (exists ext, firstLine (str ".bashrc") = dot :: ext /\ NoDot ext) /\
  baseName (firstLine (str ".bashrc")) = firstLine (str ".bashrc") /\
  fst (getOutputKey (str "q1_w2_h3" ++ str "/" ++ str ".bashrc"))
    = str "resized-" ++ str "q1_w2_h3" ++ str "/" ++ firstLine (str ".bashrc")
        ++ str "." ++ outputFormat.
Proof.
  split; [exact bashrc_prefix_recognized|].
  split; [exists (str "bashrc"); split; reflexivity|].
  destruct (@dotless_segment_is_base_name (str "q1_w2_h3") (str ".bashrc")
              bashrc_prefix_recognized
              (or_intror (ex_intro _ (str "bashrc") (conj eq_refl eq_refl))))
    as (_ & Hb & Hk & _).
  split; [exact Hb|exact Hk].
Defined.

(** The key [q85_w128_h128/] is of the new shape, its segment has no dot,
    and the derived base name is the empty string. *)
Lemma empty_segment_empty_base_name :
  NewShape (str "q85_w128_h128/") (str "q85_w128_h128") [] /\
  NoDot [] /\
  baseName [] = [] /\
  fst (getOutputKey (str "q85_w128_h128/")) = str "resized-q85_w128_h128/.jpeg".
Proof.
  split; [|repeat split; reflexivity].
  exists (str "85"), (str "128"), (str "128"), [].
  repeat split; try discriminate; reflexivity.
Qed.

(** C10, as stated, fails in three ways.  The key [q85_w128_h128/] has an
    empty trailing segment, and the derived base name is empty.  In the key
    [q1_w2_h3/abc<LF>def] the trailing segment [abc<LF>def] has no dot, but
    the base name is [abc], not the entire segment.  And in the key
    [q85_w128_h128/<LF>foo] the trailing segment [<LF>foo] has no dot and is
    not empty, but the derived base name is empty. *)
Lemma trailing_segment_cut_or_empty :
  (recognizedPrefix (str "q85_w128_h128") /\ NoDot [] /\
   fst (getOutputKey (str "q85_w128_h128" ++ str "/" ++ []))
     = str "resized-q85_w128_h128/" ++ [] ++ str ".jpeg") /\
  (recognizedPrefix (str "q1_w2_h3") /\ NoDot (str "abc" ++ 10%N :: str "def") /\
   fst (getOutputKey (str "q1_w2_h3" ++ str "/" ++ str "abc" ++ 10%N :: str "def"))
     = str "resized-q1_w2_h3/" ++ str "abc" ++ str ".jpeg" /\
   fst (getOutputKey (str "q1_w2_h3" ++ str "/" ++ str "abc" ++ 10%N :: str "def"))
     <> str "resized-q1_w2_h3/" ++ (str "abc" ++ 10%N :: str "def") ++ str ".jpeg") /\
  (NoDot (10%N :: str "foo") /\ 10%N :: str "foo" <> [] /\
   fst (getOutputKey (str "q85_w128_h128" ++ str "/" ++ 10%N :: str "foo"))
     = str "resized-q85_w128_h128/" ++ [] ++ str ".jpeg").
Proof.
  assert (H85 : recognizedPrefix (str "q85_w128_h128")).
  { left. exists (str "85"), (str "128"), (str "128").
    repeat split; try discriminate; reflexivity. }
  split; [|split].
  - split; [exact H85|]. split; reflexivity.
  - split; [exact bashrc_prefix_recognized|]. split; [reflexivity|].
    split; [reflexivity|vm_compute; discriminate].
  - split; [reflexivity|]. split; [discriminate|reflexivity].
Qed.

(** * Properties of the parameter handlers *)

Section Numbers.

Open Scope float_scope.

Lemma ltb_leb (x y : float) : (x <? y) = true -> (x <=? y) = true.
Proof.
  rewrite FloatAxioms.ltb_spec, FloatAxioms.leb_spec. unfold SFltb, SFleb.
  destruct (SFcompare (Prim2SF x) (Prim2SF y)) as [[]|]; congruence.
Qed.

Lemma is_zero_leb_100 (x : float) : PrimFloat.is_zero x = true -> (x <=? 100) = true.
Proof.
  unfold PrimFloat.is_zero. rewrite FloatAxioms.eqb_spec, FloatAxioms.leb_spec.
  set (z := Prim2SF zero). vm_compute in z. subst z.
  set (h := Prim2SF 100). vm_compute in h. subst h.
  destruct (Prim2SF x) as [sg|sg| |sg m e]; try destruct sg;
    unfold SFeqb, SFleb, SFcompare; intros H; try discriminate H; reflexivity.
Qed.

(** The clamp of [handleQualityChange] always lands in [1, 100]. *)
Lemma handleQualityChange_range (newQuality : float) (s : State) :
  (1 <=? quality (handleQualityChange newQuality s)) = true /\
  (quality (handleQualityChange newQuality s) <=? 100) = true.
Proof.
  unfold handleQualityChange, Math_max, Math_min, isNaN. cbn [quality setQuality].
  change (PrimFloat.is_nan 100) with false. change (PrimFloat.is_nan 1) with false.
  cbn [orb].
  destruct (PrimFloat.is_nan newQuality) eqn:Hnan; [split; reflexivity|].
  assert (Hy : forall y, PrimFloat.is_nan y = false -> (y <=? 100) = true ->
    let m := if 1 <? y then y else if y <? 1 then 1
             else if (PrimFloat.is_zero 1 && PrimFloat.get_sign 1)%bool then y else 1 in
    (1 <=? (if PrimFloat.is_nan (if PrimFloat.is_nan y then nan else m) then 85 else
            (if PrimFloat.is_nan y then nan else m))) = true /\
    ((if PrimFloat.is_nan (if PrimFloat.is_nan y then nan else m) then 85 else
            (if PrimFloat.is_nan y then nan else m)) <=? 100) = true).
  { intros y Hy Hle. cbn zeta. rewrite Hy.
    change (PrimFloat.is_zero 1 && PrimFloat.get_sign 1)%bool with false. cbn iota.
    destruct (1 <? y) eqn:H1.
    - rewrite Hy. split; [now apply ltb_leb|assumption].
    - destruct (y <? 1); split; reflexivity. }
  destruct (100 <? newQuality) eqn:H100; [apply Hy; reflexivity|].
  destruct (newQuality <? 100) eqn:Hlt; [apply Hy; [assumption|now apply ltb_leb]|].
  destruct (PrimFloat.is_zero newQuality) eqn:Hz; cbn [andb].
  - destruct (PrimFloat.get_sign newQuality); [|apply Hy; reflexivity].
    apply Hy; [assumption|now apply is_zero_leb_100].
  - apply Hy; reflexivity.
Qed.

(** The value [handleDimensionChange] stores is at least 1. *)
Lemma handleDimensionChange_at_least_1 (value : float) (s : State) :
  (1 <=? width (handleDimensionChange value (str "width") s)) = true /\
  (1 <=? height (handleDimensionChange value (str "height") s)) = true.
Proof.
  unfold handleDimensionChange, Math_max, isNaN.
  change (eqString (str "width") (str "width")) with true.
  change (eqString (str "height") (str "width")) with false.
  change (eqString (str "height") (str "height")) with true.
  cbn [width height setWidth setHeight].
  change (PrimFloat.is_nan 1) with false. cbn [orb].
  change (PrimFloat.is_zero 1 && PrimFloat.get_sign 1)%bool with false. cbn iota.
  assert (H : (1 <=? (let numValue :=
                        if PrimFloat.is_nan value then nan
                        else if 1 <? value then value
                             else if value <? 1 then 1 else 1 in
                      if (PrimFloat.is_nan numValue || (numValue =? 0))%bool
                      then 128 else numValue)) = true).
  { cbn zeta. destruct (PrimFloat.is_nan value) eqn:Hnan; [reflexivity|].
    destruct (1 <? value) eqn:H1.
    - rewrite Hnan. cbn [orb]. destruct (value =? 0); [reflexivity|now apply ltb_leb].
    - destruct (value <? 1); reflexivity. }
  split; exact H.
Qed.

End Numbers.

(** C9 on the code: when the dimension input parses as zero, the clamp of
    line 78 has already raised it to 1 before line 79 tests for zero, so the
    stored dimension is 1 and not the fallback 128 (the fallback is taken
    for NaN only); and a value that is not an integer is stored as it is. *)
Theorem dimension_zero_becomes_one (s : State) :
  width (handleDimensionChange 0%float (str "width") s) = 1%float /\
  height (handleDimensionChange 0%float (str "height") s) = 1%float /\
  width (handleDimensionChange nan (str "width") s) = 128%float /\
  width (handleDimensionChange 2.5%float (str "width") s) = 2.5%float /\
  quality (handleQualityChange 50.5%float s) = 50.5%float.
Proof. repeat split; reflexivity. Qed.

(** * Properties of the upload and polling state machine *)

Example sample_upload_starts_poll :
  exists s, run sourceMaxPollingAttempts initialState sampleUpload = Some s /\
            freshPoll s 1 /\ isLoading s = true /\ selectedFile s = None /\
            intervals s = [{| intervalId := 1; intervalKey := str "resized-q85_w128_h128/a.jpeg";
                              intervalUrl := sampleUrl |}].
Proof.
  eexists. split; [vm_compute; reflexivity|].
  repeat split. eexists. eexists. reflexivity.
Qed.

(** Projections of updated states. *)
Ltac fields :=
  cbn [selectedFile uploadStatus isLoading resizedImageUrl originalPreviewUrl
       lastUploadedKey quality width height pollingIntervalRef pollingAttemptsRef
       intervals nextHandle probes issued uploads console
       setSelectedFile setUploadStatus setIsLoading setResizedImageUrl
       setOriginalPreviewUrl setLastUploadedKey setQuality setWidth setHeight
       setPollingIntervalRef setPollingAttemptsRef withIntervals withNextHandle
       withProbes withIssued withUploads withConsole consoleLog consoleWarn
       consoleError clearInterval dropProbe dropUpload fetchHead] in *.

Section PollingFacts.

Variable maxPollingAttempts : nat.

Lemma eqString_refl (a : JSString) : eqString a a = true.
Proof. unfold eqString. destruct (list_eq_dec N.eq_dec a a); congruence. Qed.

Lemma eqString_eq (a b : JSString) : eqString a b = true -> a = b.
Proof. unfold eqString. destruct (list_eq_dec N.eq_dec a b); congruence. Qed.

Lemma sameKey_eq (a b : option JSString) : sameKey a b = true <-> a = b.
Proof.
  destruct a as [a|], b as [b|]; cbn; split; try congruence.
  - intros H. now rewrite (eqString_eq _ _ H).
  - intros H. inversion H. apply eqString_refl.
Qed.

(** No render changes the key: the effect does not run. *)
Lemma commit_unchanged (k : option JSString) (s : State) :
  lastUploadedKey s = k -> commit k s = s.
Proof.
  intros <-. unfold commit.
  now rewrite (proj2 (sameKey_eq _ _) eq_refl).
Qed.

(** [stopPolling] leaves no timer behind when the only live timer is the one
    the ref holds. *)
Lemma stopPolling_timers (s : State) :
  timerInvariant s ->
  intervals (stopPolling s) = [] /\ pollingIntervalRef (stopPolling s) = None.
Proof.
  unfold timerInvariant, stopPolling.
  destruct (pollingIntervalRef s) as [t|] eqn:E.
  - intros (key & url & H). fields. rewrite H. cbn. now rewrite Nat.eqb_refl.
  - intros H. now rewrite E.
Qed.

Lemma stopPolling_ref (s : State) : pollingIntervalRef (stopPolling s) = None.
Proof.
  unfold stopPolling. destruct (pollingIntervalRef s) eqn:E; [reflexivity|assumption].
Qed.

Lemma stopPolling_intervals_nil (s : State) :
  intervals s = [] -> intervals (stopPolling s) = [].
Proof.
  unfold stopPolling. intros H. destruct (pollingIntervalRef s); fields; now rewrite H.
Qed.

Lemma stopPolling_frame (s : State) :
  selectedFile (stopPolling s) = selectedFile s /\
  uploadStatus (stopPolling s) = uploadStatus s /\
  isLoading (stopPolling s) = isLoading s /\
  resizedImageUrl (stopPolling s) = resizedImageUrl s /\
  lastUploadedKey (stopPolling s) = lastUploadedKey s /\
  issued (stopPolling s) = issued s /\
  probes (stopPolling s) = probes s /\
  uploads (stopPolling s) = uploads s.
Proof. unfold stopPolling. destruct (pollingIntervalRef s); repeat split. Qed.

(** A tick below the budget sends a probe; a tick beyond it ends the poll. *)
Lemma handle_tick_probe (s : State) (t : TimerId) (now : N) (iv : Interval) :
  findInterval t s = Some iv ->
  pollingAttemptsRef s < maxPollingAttempts ->
  exists entry,
    handle maxPollingAttempts s (Tick t now) =
    Some (fetchHead (intervalUrl iv) now
            (withConsole (entry :: console s)
               (setPollingAttemptsRef (pollingAttemptsRef s + 1) s))).
Proof.
  intros Hf Hlt. unfold handle, dispatch. rewrite Hf. cbn [option_map].
  unfold intervalCallback. fields.
  destruct (Nat.ltb_spec maxPollingAttempts (pollingAttemptsRef s + 1)); [lia|].
  eexists. now rewrite commit_unchanged.
Qed.

Lemma handle_tick_timeout (s : State) (t : TimerId) (now : N) (iv : Interval) :
  findInterval t s = Some iv ->
  maxPollingAttempts <= pollingAttemptsRef s ->
  exists s0,
    handle maxPollingAttempts s (Tick t now) = Some (stopPolling s0) /\
    intervals s0 = intervals s /\ pollingIntervalRef s0 = pollingIntervalRef s /\
    issued s0 = issued s /\ isLoading s0 = false /\
    uploadStatus s0 = str "Image processing timed out. Please try again.".
Proof.
  intros Hf Hle. unfold handle, dispatch. rewrite Hf. cbn [option_map].
  unfold intervalCallback. fields.
  destruct (Nat.ltb_spec maxPollingAttempts (pollingAttemptsRef s + 1)); [|lia].
  eexists. split.
  - rewrite commit_unchanged; [reflexivity|].
    now rewrite (proj1 (proj2 (proj2 (proj2 (proj2 (stopPolling_frame _)))))).
  - repeat split.
Qed.

(** A response that does not report success only leaves the set of requests
    in flight and writes one console line. *)
Lemma handle_reply_not_found (s : State) (p : nat) (o : ProbeOutcome) (now : N) (pr : Probe) :
  findProbe p s = Some pr ->
  probeFound o = false ->
  exists entry,
    handle maxPollingAttempts s (ProbeReply p o now) =
    Some (withConsole (entry :: console s) (dropProbe p s)).
Proof.
  intros Hf Ho. unfold handle, dispatch. rewrite Hf. cbn [option_map].
  unfold probeContinuation. destruct o as [status|message]; cbn in Ho.
  - rewrite Ho. destruct ((status =? 403) || (status =? 404))%N;
      eexists; now rewrite commit_unchanged.
  - eexists; now rewrite commit_unchanged.
Qed.

Lemma handle_reply_found (s : State) (p : nat) (status : N) (now : N) (pr : Probe) :
  findProbe p s = Some pr ->
  responseOk status = true ->
  exists s0,
    handle maxPollingAttempts s (ProbeReply p (HeadResponse status) now) =
    Some (setIsLoading false
            (setUploadStatus (str "Resized image loaded.")
               (setResizedImageUrl (Some (probeUrl pr ++ str "?t=" ++ showN now))
                  (stopPolling s0)))) /\
    intervals s0 = intervals s /\ pollingIntervalRef s0 = pollingIntervalRef s /\
    issued s0 = issued s /\ probes s0 = probes (dropProbe p s).
Proof.
  intros Hf Ho. unfold handle, dispatch. rewrite Hf. cbn [option_map].
  unfold probeContinuation. rewrite Ho.
  eexists. split.
  - rewrite commit_unchanged; [reflexivity|]. fields.
    now rewrite (proj1 (proj2 (proj2 (proj2 (proj2 (stopPolling_frame _)))))).
  - repeat split.
Qed.

Lemma findInterval_single (s : State) (iv : Interval) (t : TimerId) :
  intervals s = [iv] ->
  findInterval t s = if intervalId iv =? t then Some iv else None.
Proof. intros H. unfold findInterval. rewrite H. reflexivity. Qed.

Lemma findInterval_nil (s : State) (t : TimerId) :
  intervals s = [] -> findInterval t s = None.
Proof. intros H. unfold findInterval. now rewrite H. Qed.

(** Once the timer is cleared, the events of the poll send no probe: no
    tick can occur, and the responses still due send nothing. *)
Lemma stopped_poll_issues_nothing (tr : list Event) (s s' : State) :
  intervals s = [] ->
  forallb isPollEvent tr = true ->
  run maxPollingAttempts s tr = Some s' ->
  intervals s' = [] /\ issued s' = issued s /\ ticks tr = 0.
Proof.
  revert s. induction tr as [|e tr IH]; intros s Hi Hev Hrun.
  - inversion Hrun; subst. auto.
  - cbn [forallb] in Hev. apply andb_prop in Hev as [He Hev].
    cbn [run] in Hrun.
    destruct (handle maxPollingAttempts s e) as [s1|] eqn:Hh; [|discriminate].
    destruct e; try discriminate He.
    + unfold handle, dispatch in Hh. now rewrite findInterval_nil in Hh.
    + assert (Hp : exists pr, findProbe p s = Some pr).
      { unfold handle, dispatch in Hh. destruct (findProbe p s); [eauto|discriminate]. }
      destruct Hp as [pr Hp]. destruct (probeFound o) eqn:Ho.
      * destruct o as [status|message]; [|discriminate]. cbn in Ho.
        destruct (@handle_reply_found s p status now pr Hp Ho) as (s0 & E & Hi0 & _ & Hiss & _).
        rewrite E in Hh. inversion Hh; subst s1. clear Hh.
        apply IH in Hrun;
          [|fields; apply stopPolling_intervals_nil; congruence|assumption].
        destruct Hrun as (H1 & H2 & H3).
        repeat split; auto. rewrite H2. fields.
        rewrite (proj1 (proj2 (proj2 (proj2 (proj2 (proj2 (stopPolling_frame _))))))).
        assumption.
      * destruct (@handle_reply_not_found s p o now pr Hp Ho) as (entry & E).
        rewrite E in Hh. inversion Hh; subst s1. clear Hh.
        apply IH in Hrun; [|exact Hi|assumption].
        destruct Hrun as (H1 & H2 & H3). auto.
Qed.

Lemma noSuccess_isPollEvent (tr : list Event) :
  forallb noSuccess tr = true -> forallb isPollEvent tr = true.
Proof.
  induction tr as [|e tr IH]; [reflexivity|]. cbn. intros H.
  apply andb_prop in H as [He H]. rewrite (IH H).
  destruct e; try discriminate He; reflexivity.
Qed.

(** An exhausted poll stays exhausted while no probe reports success. *)
Lemma exhausted_stays (tr : list Event) (s s' : State) :
  exhausted s ->
  forallb noSuccess tr = true ->
  run maxPollingAttempts s tr = Some s' ->
  exhausted s' /\ issued s' = issued s /\ ticks tr = 0.
Proof.
  revert s. induction tr as [|e tr IH]; intros s Hex Hev Hrun.
  - inversion Hrun; subst. auto.
  - cbn [forallb] in Hev. apply andb_prop in Hev as [He Hev].
    cbn [run] in Hrun.
    destruct (handle maxPollingAttempts s e) as [s1|] eqn:Hh; [|discriminate].
    destruct Hex as (Hr & Hi & Hl & Hu).
    destruct e; try discriminate He.
    + unfold handle, dispatch in Hh. now rewrite findInterval_nil in Hh.
    + assert (Hp : exists pr, findProbe p s = Some pr).
      { unfold handle, dispatch in Hh. destruct (findProbe p s); [eauto|discriminate]. }
      destruct Hp as [pr Hp]. cbn in He. apply negb_true_iff in He.
      destruct (@handle_reply_not_found s p o now pr Hp He) as (entry & E).
      rewrite E in Hh. inversion Hh; subst s1. clear Hh.
      apply IH in Hrun; [|repeat split; assumption|assumption].
      destruct Hrun as (H1 & H2 & H3). auto.
Qed.

(** The poll, from any point below the budget, under events in which no
    probe finds the artifact: either the budget is not yet used up and every
    tick has sent one probe, or the tick after the last allowed probe has
    ended the poll. *)
Lemma poll_run_steps (tr : list Event) (s s' : State) (iv : Interval) :
  intervals s = [iv] ->
  pollingIntervalRef s = Some (intervalId iv) ->
  pollingAttemptsRef s <= maxPollingAttempts ->
  forallb noSuccess tr = true ->
  run maxPollingAttempts s tr = Some s' ->
  (pollingAttemptsRef s + ticks tr <= maxPollingAttempts /\
   intervals s' = [iv] /\ pollingIntervalRef s' = Some (intervalId iv) /\
   pollingAttemptsRef s' = pollingAttemptsRef s + ticks tr /\
   List.length (issued s') = List.length (issued s) + ticks tr /\
   isLoading s' = isLoading s)
  \/
  (pollingAttemptsRef s + ticks tr = S maxPollingAttempts /\ exhausted s' /\
   List.length (issued s') =
     List.length (issued s) + (maxPollingAttempts - pollingAttemptsRef s)).
Proof.
  revert s. induction tr as [|e tr IH]; intros s Hi Hr Ha Hev Hrun.
  - inversion Hrun; subst. left. cbn. repeat split; auto; lia.
  - cbn [forallb] in Hev. apply andb_prop in Hev as [He Hev].
    cbn [run] in Hrun.
    destruct (handle maxPollingAttempts s e) as [s1|] eqn:Hh; [|discriminate].
    destruct e; try discriminate He.
    + (* a tick *)
      assert (Hf : findInterval t s = Some iv).
      { unfold handle, dispatch in Hh. rewrite (@findInterval_single s iv t Hi) in Hh |- *.
        destruct (intervalId iv =? t); [reflexivity|discriminate]. }
      change (ticks (Tick t now :: tr)) with (S (ticks tr)).
      destruct (Nat.lt_ge_cases (pollingAttemptsRef s) maxPollingAttempts) as [Hlt|Hge].
      * destruct (@handle_tick_probe s t now iv Hf Hlt) as (entry & E).
        rewrite E in Hh. inversion Hh; subst s1. clear Hh.
        apply IH in Hrun; [|assumption|assumption|fields; lia|assumption].
        fields. cbn [List.length] in Hrun.
        destruct Hrun as [(H1 & H2 & H3 & H4 & H5 & H6)|(H1 & H2 & H3)].
        -- left. repeat split; auto; lia.
        -- right. split; [lia|]. split; [exact H2|lia].
      * destruct (@handle_tick_timeout s t now iv Hf Hge) as (s0 & E & Hi0 & Hr0 & Hiss & Hl & Hu).
        rewrite E in Hh. inversion Hh; subst s1. clear Hh.
        assert (Hex : exhausted (stopPolling s0)).
        { destruct (stopPolling_frame s0) as (_ & F2 & F3 & _).
          assert (Ht : timerInvariant s0).
          { unfold timerInvariant. rewrite Hr0, Hr, Hi0, Hi. destruct iv. eauto. }
          destruct (@stopPolling_timers s0 Ht) as [T1 T2].
          repeat split; congruence. }
        destruct (@exhausted_stays tr _ s' Hex Hev Hrun) as (H1 & H2 & H3).
        right. rewrite H3, H2.
        rewrite (proj1 (proj2 (proj2 (proj2 (proj2 (proj2 (stopPolling_frame _))))))), Hiss.
        split; [lia|]. split; [exact H1|lia].
    + (* a response without success *)
      assert (Hp : exists pr, findProbe p s = Some pr).
      { unfold handle, dispatch in Hh. destruct (findProbe p s); [eauto|discriminate]. }
      destruct Hp as [pr Hp]. cbn in He. apply negb_true_iff in He.
      destruct (@handle_reply_not_found s p o now pr Hp He) as (entry & E).
      rewrite E in Hh. inversion Hh; subst s1. clear Hh.
      apply IH in Hrun; [exact Hrun|assumption..].
Qed.

(** The timer does fire: a run of ticks that uses up the budget exists. *)
Lemma ticks_run (nows : list N) (s : State) (iv : Interval) :
  intervals s = [iv] ->
  pollingIntervalRef s = Some (intervalId iv) ->
  pollingAttemptsRef s + List.length nows = S maxPollingAttempts ->
  exists s', run maxPollingAttempts s (List.map (Tick (intervalId iv)) nows) = Some s'.
Proof.
  revert s. induction nows as [|now nows IH]; intros s Hi Hr Hlen.
  - eexists. reflexivity.
  - cbn [List.map run List.length] in *.
    assert (Hf : findInterval (intervalId iv) s = Some iv).
    { rewrite (@findInterval_single s iv (intervalId iv) Hi). now rewrite Nat.eqb_refl. }
    destruct (Nat.lt_ge_cases (pollingAttemptsRef s) maxPollingAttempts) as [Hlt|Hge].
    + destruct (@handle_tick_probe s (intervalId iv) now iv Hf Hlt) as (entry & E).
      rewrite E. apply IH; fields; auto; lia.
    + destruct (@handle_tick_timeout s (intervalId iv) now iv Hf Hge) as (s0 & E & _).
      rewrite E. destruct nows; [eexists; reflexivity|cbn in Hlen; lia].
Qed.

Lemma ticks_map_Tick (t : TimerId) (nows : list N) :
  ticks (List.map (Tick t) nows) = List.length nows /\
  forallb noSuccess (List.map (Tick t) nows) = true.
Proof.
  induction nows as [|now nows [IH1 IH2]]; [split; reflexivity|].
  split; [cbn in *; unfold ticks in IH1; now rewrite IH1|assumption].
Qed.

(** C2.  From a freshly started poll, in every run of poll events in which
    no probe finds the artifact: at most [maxPollingAttempts + 1] ticks
    occur, the first [maxPollingAttempts] of them send one probe each, and
    the next one sends none and ends the poll as timed out, so no probe
    beyond the budget is ever sent; and the run of
    [maxPollingAttempts + 1] ticks does take place. *)
Theorem poll_without_success_exhausts (s : State) (t : TimerId) :
  freshPoll s t ->
  (forall tr s',
      forallb noSuccess tr = true ->
      run maxPollingAttempts s tr = Some s' ->
      ticks tr <= S maxPollingAttempts /\
      List.length (issued s') =
        List.length (issued s) + Nat.min (ticks tr) maxPollingAttempts /\
      (ticks tr <= maxPollingAttempts ->
         pollingIntervalRef s' = Some t /\ pollingAttemptsRef s' = ticks tr) /\
      (ticks tr = S maxPollingAttempts -> exhausted s')) /\
  (forall nows,
      List.length nows = S maxPollingAttempts ->
      exists s',
        run maxPollingAttempts s (List.map (Tick t) nows) = Some s' /\
        exhausted s' /\
        List.length (issued s') = List.length (issued s) + maxPollingAttempts).
Proof.
  intros (Hr & Ha & key & url & Hi).
  set (iv := {| intervalId := t; intervalKey := key; intervalUrl := url |}) in *.
  assert (Hsteps : forall tr s',
             forallb noSuccess tr = true ->
             run maxPollingAttempts s tr = Some s' ->
             (ticks tr <= maxPollingAttempts /\
              pollingIntervalRef s' = Some t /\ pollingAttemptsRef s' = ticks tr /\
              List.length (issued s') = List.length (issued s) + ticks tr)
             \/ (ticks tr = S maxPollingAttempts /\ exhausted s' /\
                 List.length (issued s') = List.length (issued s) + maxPollingAttempts)).
  { intros tr s' Hev Hrun.
    destruct (@poll_run_steps tr s s' iv Hi Hr ltac:(lia) Hev Hrun)
      as [(H1 & H2 & H3 & H4 & H5 & H6)|(H1 & H2 & H3)]; rewrite Ha in *.
    - left. repeat split; auto.
    - right. split; [lia|]. split; [exact H2|]. rewrite H3. lia. }
  split.
  - intros tr s' Hev Hrun.
    destruct (Hsteps tr s' Hev Hrun) as [(H1 & H2 & H3 & H4)|(H1 & H2 & H3)].
    + split; [lia|]. split; [lia|]. split; [auto|intros; lia].
    + split; [lia|]. split; [lia|]. split; [intros; lia|intros; exact H2].
  - intros nows Hlen.
    destruct (@ticks_run nows s iv Hi Hr ltac:(lia)) as (s' & Hrun).
    exists s'. split; [exact Hrun|].
    destruct (ticks_map_Tick t nows) as [Hn Hev].
    destruct (Hsteps _ s' Hev Hrun) as [(H1 & _)|(H1 & H2 & H3)]; [lia|auto].
Qed.

(** ** The timer invariant *)

Lemma stopPolling_selectedFile (s : State) : selectedFile (stopPolling s) = selectedFile s.
Proof. apply stopPolling_frame. Qed.

Lemma stopPolling_lastUploadedKey (s : State) :
  lastUploadedKey (stopPolling s) = lastUploadedKey s.
Proof. apply stopPolling_frame. Qed.

Lemma stopPolling_issued (s : State) : issued (stopPolling s) = issued s.
Proof. apply stopPolling_frame. Qed.

Lemma stopPolling_probes (s : State) : probes (stopPolling s) = probes s.
Proof. apply stopPolling_frame. Qed.

Lemma timersKeptOrStopped_invariant (s d : State) :
  timerInvariant s -> timersKeptOrStopped s d -> timerInvariant d.
Proof.
  unfold timerInvariant. intros H [[Hi Hr]|[Hi Hr]]; rewrite Hr, Hi; auto.
Qed.

Ltac kept := left; split; reflexivity.
Ltac stopped H :=
  right; fields;
  match goal with
  | |- context [stopPolling ?x] => exact (@stopPolling_timers x H)
  end.

Lemma handleUpload_catch_timers (s : State) (message : JSString) :
  timerInvariant s -> timersKeptOrStopped s (handleUpload_catch message s).
Proof. intros H. unfold handleUpload_catch. stopped H. Qed.

Lemma dispatch_timers (s d : State) (e : Event) :
  timerInvariant s ->
  dispatch maxPollingAttempts s e = Some d ->
  timersKeptOrStopped s d.
Proof.
  intros H Hd. destruct e; cbn [dispatch] in Hd.
  - (* FileChange *)
    inversion Hd; subst d. unfold handleFileChange. destruct file; [stopped H|kept].
  - inversion Hd; subst d. kept.
  - inversion Hd; subst d. kept.
  - inversion Hd; subst d. kept.
  - inversion Hd; subst d. kept.
  - inversion Hd; subst d. kept.
  - inversion Hd; subst d. unfold handleDimensionChange.
    destruct (eqString type (str "width")); [kept|].
    destruct (eqString type (str "height")); kept.
  - (* UploadClick *)
    inversion Hd; subst d. unfold handleUpload.
    destruct (selectedFile s); [stopped H|kept].
  - (* BrokerReply *)
    destruct (findUpload flow s) as [fl|]; [|discriminate].
    destruct (flowStage fl); [|discriminate]. inversion Hd; subst d.
    destruct o; cbn [brokerContinuation].
    + kept.
    + apply (@handleUpload_catch_timers (dropUpload flow s)). exact H.
    + apply (@handleUpload_catch_timers (dropUpload flow s)). exact H.
  - (* TransferReply *)
    destruct (findUpload flow s) as [fl|]; [|discriminate].
    destruct (flowStage fl); [discriminate|]. inversion Hd; subst d.
    destruct o; cbn [transferContinuation].
    + destruct (responseOk status); [kept|].
      apply (@handleUpload_catch_timers
               (consoleError [str "S3 Upload Error Response:"; errorText]
                  (dropUpload flow s))).
      exact H.
    + apply (@handleUpload_catch_timers (dropUpload flow s)). exact H.
  - (* Tick *)
    destruct (findInterval t s) as [iv|]; [|discriminate]. inversion Hd; subst d.
    unfold intervalCallback. fields.
    destruct (maxPollingAttempts <? pollingAttemptsRef s + 1); [stopped H|kept].
  - (* ProbeReply *)
    destruct (findProbe p s) as [pr|]; [|discriminate]. inversion Hd; subst d.
    unfold probeContinuation. destruct o as [status|message]; [|kept].
    destruct (responseOk status); [stopped H|].
    destruct ((status =? 403) || (status =? 404))%N; kept.
  - (* ResetClick *)
    inversion Hd; subst d. unfold resetClick. stopped H.
  - inversion Hd; subst d. unfold handleDownloadClick.
    destruct (truthy (resizedImageUrl s)); kept.
  - inversion Hd; subst d. unfold downloadContinuation.
    destruct o as [[|] ?|?]; kept.
Qed.

(** What the effect does once the previous poll is stopped: nothing for a
    falsy key, and otherwise one new timer, with the counter at 0. *)
Lemma pollingEffect_spec (s : State) :
  intervals s = [] -> pollingIntervalRef s = None ->
  (truthy (lastUploadedKey s) = false /\ pollingEffect s = s) \/
  (truthy (lastUploadedKey s) = true /\
   exists iv,
     intervals (pollingEffect s) = [iv] /\
     pollingIntervalRef (pollingEffect s) = Some (intervalId iv) /\
     pollingAttemptsRef (pollingEffect s) = 0 /\
     selectedFile (pollingEffect s) = selectedFile s /\
     lastUploadedKey (pollingEffect s) = lastUploadedKey s).
Proof.
  intros Hi Hr. unfold pollingEffect, stopPolling. rewrite Hr.
  destruct (truthy (lastUploadedKey s)); [right|left; auto].
  split; [reflexivity|].
  destruct (getOutputKey _) as [outputKey logged].
  unfold setInterval. fields. rewrite Hi. eexists. repeat split.
Qed.

(** The render after a handler: the same state, or the previous poll stopped
    and, for a truthy key, a fresh one started. *)
Lemma commit_spec (k : option JSString) (d : State) :
  timerInvariant d ->
  (lastUploadedKey d = k /\ commit k d = d) \/
  (lastUploadedKey d <> k /\
   selectedFile (commit k d) = selectedFile d /\
   lastUploadedKey (commit k d) = lastUploadedKey d /\
   ((truthy (lastUploadedKey d) = false /\
     intervals (commit k d) = [] /\ pollingIntervalRef (commit k d) = None) \/
    (truthy (lastUploadedKey d) = true /\
     exists iv,
       intervals (commit k d) = [iv] /\
       pollingIntervalRef (commit k d) = Some (intervalId iv) /\
       pollingAttemptsRef (commit k d) = 0))).
Proof.
  intros H. unfold commit. destruct (sameKey k (lastUploadedKey d)) eqn:E.
  - left. apply sameKey_eq in E. auto.
  - right. split.
    { intros Heq. rewrite Heq in E. rewrite (proj2 (sameKey_eq _ _) eq_refl) in E.
      discriminate. }
    destruct (@stopPolling_timers d H) as [Hi Hr].
    destruct (@pollingEffect_spec (stopPolling d) Hi Hr) as [[Ht Hp]|(Ht & iv & H1 & H2 & H3 & H4 & H5)].
    + rewrite Hp. rewrite stopPolling_lastUploadedKey in Ht.
      rewrite stopPolling_selectedFile, stopPolling_lastUploadedKey. auto 10.
    + rewrite H4, H5. rewrite stopPolling_lastUploadedKey in Ht.
      rewrite stopPolling_selectedFile, stopPolling_lastUploadedKey.
      repeat split. right. split; [assumption|]. exists iv. auto.
Qed.

(** A handler never leaves a file selected together with an uploaded key. *)
Lemma dispatch_selection (s d : State) (e : Event) :
  (lastUploadedKey s <> None -> selectedFile s = None) ->
  dispatch maxPollingAttempts s e = Some d ->
  lastUploadedKey d <> None -> selectedFile d = None.
Proof.
  intros H Hd. destruct e; cbn [dispatch] in Hd;
    repeat match type of Hd with
           | match ?x with _ => _ end = _ => destruct x; try discriminate Hd
           end;
    inversion Hd; subst d; clear Hd;
    unfold handleFileChange, readerLoadEnd, readerError, handleQualityChange,
      incrementQuality, decrementQuality, handleQualityChange, handleDimensionChange,
      handleUpload, brokerContinuation, transferContinuation, handleUpload_catch,
      intervalCallback, probeContinuation, resetClick, handleDownloadClick,
      downloadContinuation;
    repeat match goal with
           | |- context [match ?x with _ => _ end] => destruct x eqn:?
           end;
    fields;
    rewrite ?stopPolling_lastUploadedKey, ?stopPolling_selectedFile; fields;
    try (intros Hk; reflexivity || (exfalso; apply Hk; reflexivity));
    try exact H; intros; assumption.
Qed.

Lemma handle_Inv (s s' : State) (e : Event) :
  Inv s -> handle maxPollingAttempts s e = Some s' -> Inv s'.
Proof.
  intros (Ht & Hk & Hs) Hh. unfold handle in Hh.
  destruct (dispatch maxPollingAttempts s e) as [d|] eqn:Hd; [|discriminate].
  cbn in Hh. inversion Hh; subst s'. clear Hh.
  pose proof (@dispatch_timers s d e Ht Hd) as Htm.
  pose proof (@timersKeptOrStopped_invariant s d Ht Htm) as Htd.
  pose proof (@dispatch_selection s d e Hs Hd) as Hsd.
  destruct (@commit_spec (lastUploadedKey s) d Htd)
    as [[Hsame Hc]|(Hdiff & Hsel & Hkey & Hcase)].
  - rewrite Hc. split; [assumption|]. split; [|assumption].
    intros Hr. rewrite Hsame. apply Hk. destruct Htm as [[_ E]|[_ E]]; congruence.
  - split; [|split].
    + unfold timerInvariant.
      destruct Hcase as [(_ & Hi & Hr)|(_ & iv & Hi & Hr & _)]; rewrite Hr, Hi; auto.
      destruct iv; eauto.
    + intros Hr. rewrite Hkey. destruct Hcase as [(_ & _ & Hr')|(Ht' & _)]; congruence.
    + rewrite Hsel, Hkey. assumption.
Qed.

Lemma reachable_Inv (s : State) : reachable maxPollingAttempts s -> Inv s.
Proof.
  induction 1 as [|s e s' _ IH Hh].
  - repeat split; cbn; congruence.
  - exact (@handle_Inv s s' e IH Hh).
Qed.

Lemma reachable_run (tr : list Event) (s s' : State) :
  reachable maxPollingAttempts s -> run maxPollingAttempts s tr = Some s' ->
  reachable maxPollingAttempts s'.
Proof.
  revert s. induction tr as [|e tr IH]; intros s Hs Hrun; cbn in Hrun.
  - inversion Hrun; subst. assumption.
  - destruct (handle maxPollingAttempts s e) as [s1|] eqn:Hh; [|discriminate].
    apply (IH s1); [|assumption]. eapply reachable_step; eassumption.
Qed.

(** Starting a new job, selecting a file and resetting stop the poll and
    clear the key. *)
Lemma dispatch_startsOver (s d : State) (e : Event) :
  timerInvariant s -> startsOver s e = true ->
  dispatch maxPollingAttempts s e = Some d ->
  intervals d = [] /\ pollingIntervalRef d = None /\ lastUploadedKey d = None.
Proof.
  intros H Hso Hd. destruct e; try discriminate Hso; cbn [dispatch] in Hd;
    inversion Hd; subst d; clear Hd.
  - destruct file as [f|]; [|discriminate Hso]. unfold handleFileChange. fields.
    rewrite stopPolling_lastUploadedKey. split; [|split; [|reflexivity]];
      match goal with |- context [stopPolling ?x] => apply (@stopPolling_timers x H) end.
  - cbn in Hso. unfold handleUpload. destruct (selectedFile s); [|discriminate Hso].
    fields. rewrite stopPolling_lastUploadedKey. split; [|split; [|reflexivity]];
      match goal with |- context [stopPolling ?x] => apply (@stopPolling_timers x H) end.
  - unfold resetClick. rewrite stopPolling_lastUploadedKey.
    split; [|split; [|reflexivity]];
      match goal with |- context [stopPolling ?x] => apply (@stopPolling_timers x H) end.
Qed.

(** The render and the effect leave the requests as they are. *)
Lemma commit_requests (k : option JSString) (d : State) :
  issued (commit k d) = issued d /\ probes (commit k d) = probes d.
Proof.
  unfold commit. destruct (sameKey k (lastUploadedKey d)); [auto|].
  unfold pollingEffect.
  assert (H : issued (stopPolling (stopPolling d)) = issued d /\
              probes (stopPolling (stopPolling d)) = probes d).
  { now rewrite !stopPolling_issued, !stopPolling_probes. }
  destruct (truthy (lastUploadedKey (stopPolling (stopPolling d)))); [|exact H].
  destruct (getOutputKey _) as [outputKey logged]. exact H.
Qed.

(** Starting over clears the timer only: the requests in flight stay in
    flight. *)
Lemma handle_startsOver_probes (s s' : State) (e : Event) :
  startsOver s e = true ->
  handle maxPollingAttempts s e = Some s' ->
  probes s' = probes s.
Proof.
  intros Hso Hh. unfold handle in Hh.
  destruct e; try discriminate Hso; cbn [dispatch option_map] in Hh;
    inversion Hh; subst s'; clear Hh;
    rewrite (proj2 (commit_requests _ _)).
  - destruct file as [f|]; [|discriminate Hso]. unfold handleFileChange. fields.
    now rewrite stopPolling_probes.
  - cbn in Hso. unfold handleUpload. destruct (selectedFile s); [|discriminate Hso].
    fields. now rewrite stopPolling_probes.
  - unfold resetClick. now rewrite stopPolling_probes.
Qed.

(** The response of a request in flight that reports success clears the
    timer that is live when it arrives and sets the URL of its own request. *)
Lemma handle_late_success (s : State) (p : nat) (pr : Probe) (status now : N) :
  timerInvariant s ->
  findProbe p s = Some pr ->
  responseOk status = true ->
  exists s',
    handle maxPollingAttempts s (ProbeReply p (HeadResponse status) now) = Some s' /\
    intervals s' = [] /\ pollingIntervalRef s' = None /\
    resizedImageUrl s' = Some (probeUrl pr ++ str "?t=" ++ showN now) /\
    lastUploadedKey s' = lastUploadedKey s.
Proof.
  intros Ht Hf Hok. unfold handle, dispatch. rewrite Hf. cbn [option_map].
  unfold probeContinuation. rewrite Hok.
  rewrite commit_unchanged by (fields; now rewrite stopPolling_lastUploadedKey).
  eexists. split; [reflexivity|]. fields.
  match goal with
  | |- context [stopPolling ?x] => destruct (@stopPolling_timers x Ht) as [Hi Hr]
  end.
  split; [exact Hi|]. split; [exact Hr|]. split; [reflexivity|].
  now rewrite stopPolling_lastUploadedKey.
Qed.

(** One event and the timers. *)
Lemma handle_timers (s s' : State) (e : Event) :
  timerInvariant s ->
  handle maxPollingAttempts s e = Some s' ->
  (startsOver s e = true -> intervals s' = [] /\ pollingIntervalRef s' = None) /\
  (forall iv, In iv (intervals s') -> ~ In iv (intervals s) ->
     intervals s' = [iv] /\ pollingIntervalRef s' = Some (intervalId iv) /\
     pollingAttemptsRef s' = 0).
Proof.
  intros Ht Hh. unfold handle in Hh.
  destruct (dispatch maxPollingAttempts s e) as [d|] eqn:Hd; [|discriminate].
  cbn in Hh. inversion Hh; subst s'. clear Hh.
  pose proof (@dispatch_timers s d e Ht Hd) as Htm.
  pose proof (@timersKeptOrStopped_invariant s d Ht Htm) as Htd.
  destruct (@commit_spec (lastUploadedKey s) d Htd)
    as [[Hsame Hc]|(Hdiff & Hsel & Hkey & Hcase)].
  - rewrite Hc. split.
    + intros Hso. destruct (@dispatch_startsOver s d e Ht Hso Hd) as (Hi & Hr & _). auto.
    + intros iv Hin Hnot. exfalso.
      destruct Htm as [[Hi _]|[Hi _]]; rewrite Hi in Hin; [auto|destruct Hin].
  - split.
    + intros Hso. destruct (@dispatch_startsOver s d e Ht Hso Hd) as (_ & _ & Hk).
      destruct Hcase as [(_ & Hi & Hr)|(Htr & _)]; [auto|].
      rewrite Hk in Htr. discriminate Htr.
    + intros iv Hin Hnot.
      destruct Hcase as [(_ & Hi & Hr)|(_ & iv' & Hi & Hr & Ha)].
      * rewrite Hi in Hin. destruct Hin.
      * rewrite Hi in Hin. destruct Hin as [<-|[]]. auto.
Qed.

(** C3, as the code has it.  In every state the component can reach there
    is at most one live timer, the one [pollingIntervalRef] holds.  Starting
    a new job, selecting a file and resetting leave no timer at all; and
    whenever an event creates a timer, it is the only one afterwards and the
    attempt counter is 0.  Only the timer is cancelled: starting over leaves
    the requests in flight as they are, and the response of any request in
    flight that reports success clears the timer that is live when it
    arrives and sets its own URL as the result, whatever key is recorded
    then. *)
Theorem single_poll_timer (s : State) :
  reachable maxPollingAttempts s ->
  List.length (intervals s) <= 1 /\ timerInvariant s /\
  (forall e s', handle maxPollingAttempts s e = Some s' ->
    (startsOver s e = true -> intervals s' = [] /\ pollingIntervalRef s' = None) /\
    (forall iv, In iv (intervals s') -> ~ In iv (intervals s) ->
       intervals s' = [iv] /\ pollingIntervalRef s' = Some (intervalId iv) /\
       pollingAttemptsRef s' = 0) /\
    (startsOver s e = true -> probes s' = probes s)) /\
  (forall p pr status now,
     findProbe p s = Some pr -> responseOk status = true ->
     exists s',
       handle maxPollingAttempts s (ProbeReply p (HeadResponse status) now) = Some s' /\
       intervals s' = [] /\ pollingIntervalRef s' = None /\
       resizedImageUrl s' = Some (probeUrl pr ++ str "?t=" ++ showN now) /\
       lastUploadedKey s' = lastUploadedKey s).
Proof.
  intros Hreach. destruct (@reachable_Inv s Hreach) as (Ht & _ & _).
  split; [|split; [exact Ht|split]].
  - unfold timerInvariant in Ht. destruct (pollingIntervalRef s).
    + destruct Ht as (key & url & ->). cbn. lia.
    + rewrite Ht. cbn. lia.
  - intros e s' Hh. destruct (@handle_timers s s' e Ht Hh) as [H1 H2].
    split; [exact H1|]. split; [exact H2|].
    intros Hso. exact (@handle_startsOver_probes s s' e Hso Hh).
  - intros p pr status now Hf Hok. exact (@handle_late_success s p pr status now Ht Hf Hok).
Qed.


Lemma findProbe_nil (s : State) (p : nat) : probes s = [] -> findProbe p s = None.
Proof. intros H. unfold findProbe. now rewrite H. Qed.

(** C6, as the code has it.  When the response to a probe reports success,
    the handler stops the poll at once and sets the success outcome: the
    timer is cleared, the resized image URL and the message
    [Resized image loaded.] are set and loading ends.  From then on no tick
    occurs and no probe is sent, whatever poll events follow.  Probes already
    in flight are not cancelled; once none is left, no event of the poll
    can occur any more. *)
Theorem found_stops_poll (s s' : State) (p : nat) (status now : N) :
  reachable maxPollingAttempts s ->
  responseOk status = true ->
  handle maxPollingAttempts s (ProbeReply p (HeadResponse status) now) = Some s' ->
  (exists pr, findProbe p s = Some pr /\
              resizedImageUrl s' = Some (probeUrl pr ++ str "?t=" ++ showN now)) /\
  uploadStatus s' = str "Resized image loaded." /\
  isLoading s' = false /\
  pollingIntervalRef s' = None /\ intervals s' = [] /\
  issued s' = issued s /\
  (forall tr s'',
      forallb isPollEvent tr = true ->
      run maxPollingAttempts s' tr = Some s'' ->
      issued s'' = issued s' /\ ticks tr = 0) /\
  (probes s' = [] ->
   forall e, isPollEvent e = true -> handle maxPollingAttempts s' e = None).
Proof.
  intros Hreach Hok Hh. destruct (@reachable_Inv s Hreach) as (Ht & _ & _).
  assert (Hp : exists pr, findProbe p s = Some pr).
  { unfold handle, dispatch in Hh. destruct (findProbe p s); [eauto|discriminate]. }
  destruct Hp as [pr Hp].
  destruct (@handle_reply_found s p status now pr Hp Hok) as (s0 & E & Hi0 & Hr0 & Hiss & _).
  rewrite E in Hh. inversion Hh; subst s'. clear Hh E.
  assert (Ht0 : timerInvariant s0).
  { unfold timerInvariant in *. now rewrite Hr0, Hi0. }
  destruct (@stopPolling_timers s0 Ht0) as [Hi Hr].
  split; [exists pr; split; [assumption|reflexivity]|].
  split; [reflexivity|]. split; [reflexivity|].
  split; [exact Hr|]. split; [exact Hi|].
  split; [fields; now rewrite stopPolling_issued|].
  split.
  - intros tr s'' Hev Hrun.
    apply stopped_poll_issues_nothing in Hrun; [|exact Hi|exact Hev].
    destruct Hrun as (_ & H2 & H3). auto.
  - intros Hpr e He. destruct e; try discriminate He; unfold handle, dispatch.
    + now rewrite findInterval_nil by exact Hi.
    + now rewrite findProbe_nil by exact Hpr.
Qed.

(** C7.  A probe outcome that is not a success (a 403 or 404, any other
    status, a network fault) stops nothing: the state after it is the state
    before it with the request no longer in flight and one more console
    line, exactly as for a 404; the timer, the attempt counter, the loading
    flag and the status message are untouched, so the poll goes on until the
    attempt cap. *)
Theorem unexpected_outcome_is_absorbed (s s' : State) (p : nat) (o : ProbeOutcome) (now : N) :
  probeFound o = false ->
  handle maxPollingAttempts s (ProbeReply p o now) = Some s' ->
  (exists entry, s' = withConsole (entry :: console s) (dropProbe p s)) /\
  (exists entry,
      handle maxPollingAttempts s (ProbeReply p (HeadResponse 404) now) =
      Some (withConsole (entry :: console s) (dropProbe p s))) /\
  intervals s' = intervals s /\
  pollingIntervalRef s' = pollingIntervalRef s /\
  pollingAttemptsRef s' = pollingAttemptsRef s /\
  isLoading s' = isLoading s /\
  uploadStatus s' = uploadStatus s /\
  resizedImageUrl s' = resizedImageUrl s /\
  issued s' = issued s.
Proof.
  intros Ho Hh.
  assert (Hp : exists pr, findProbe p s = Some pr).
  { unfold handle, dispatch in Hh. destruct (findProbe p s); [eauto|discriminate]. }
  destruct Hp as [pr Hp].
  destruct (@handle_reply_not_found s p o now pr Hp Ho) as (entry & E).
  rewrite E in Hh. inversion Hh; subst s'. clear Hh.
  split; [exists entry; reflexivity|].
  split; [exact (@handle_reply_not_found s p (HeadResponse 404) now pr Hp eq_refl)|].
  repeat split.
Qed.

(** X20.  Without overlapping probes the poll ends as the specification
    states: when the probes before probe [k] find nothing and probe [k] finds
    the artifact, exactly [k] probes are sent, the success outcome is set, and
    no event of the poll can occur afterwards. *)
Lemma sequential_poll_found (os : list (ProbeOutcome * N * N)) (status sent received : N)
      (s : State) (iv : Interval) :
  intervals s = [iv] ->
  pollingIntervalRef s = Some (intervalId iv) ->
  probes s = [] ->
  forallb (fun x => negb (probeFound (fst (fst x)))) os = true ->
  pollingAttemptsRef s + List.length os < maxPollingAttempts ->
  responseOk status = true ->
  exists s',
    run maxPollingAttempts s
      (sequentialRun (intervalId iv) (nextHandle s)
         (os ++ [(HeadResponse status, sent, received)])) = Some s' /\
    List.length (issued s') = List.length (issued s) + List.length os + 1 /\
    resizedImageUrl s' = Some (intervalUrl iv ++ str "?t=" ++ showN received) /\
    uploadStatus s' = str "Resized image loaded." /\ isLoading s' = false /\
    pollingIntervalRef s' = None /\ intervals s' = [] /\ probes s' = [] /\
    forall e, isPollEvent e = true -> handle maxPollingAttempts s' e = None.
Proof.
  revert s. induction os as [|[[o snt] rcv] os IH]; intros s Hi Hr Hp Hos Ha Hok.
  - cbn [app sequentialRun run List.length] in *.
    assert (Hf : findInterval (intervalId iv) s = Some iv).
    { rewrite (@findInterval_single s iv (intervalId iv) Hi). now rewrite Nat.eqb_refl. }
    destruct (@handle_tick_probe s (intervalId iv) sent iv Hf ltac:(lia)) as (entry & E).
    rewrite E. clear E.
    match goal with
    | |- context [handle _ ?x (ProbeReply ?p _ _)] =>
        assert (Hfp : exists pr, findProbe p x = Some pr /\ probeUrl pr = intervalUrl iv)
          by (unfold findProbe; fields; rewrite Hp; cbn [find probeId];
              rewrite Nat.eqb_refl; eauto);
        destruct Hfp as (pr & Hfp & Hurl);
        destruct (@handle_reply_found x p status received pr Hfp Hok)
          as (s0 & E & Hi0 & Hr0 & Hiss & Hpr)
    end.
    rewrite E. clear E. fields.
    assert (Ht0 : timerInvariant s0).
    { unfold timerInvariant. rewrite Hr0, Hr, Hi0, Hi. destruct iv. eauto. }
    destruct (@stopPolling_timers s0 Ht0) as [Hi' Hr'].
    assert (Hpr' : probes (stopPolling s0) = []).
    { rewrite stopPolling_probes, Hpr, Hp. cbn [filter probeId].
      now rewrite Nat.eqb_refl. }
    eexists. split; [reflexivity|]. fields.
    rewrite stopPolling_issued, Hiss, Hurl. cbn [List.length].
    split; [lia|]. do 6 (split; [reflexivity || assumption|]).
    intros e He. destruct e; try discriminate He; unfold handle, dispatch.
    + now rewrite findInterval_nil by exact Hi'.
    + now rewrite findProbe_nil by exact Hpr'.
  - cbn [app sequentialRun run List.length forallb fst] in *.
    apply andb_prop in Hos as [Ho Hos]. apply negb_true_iff in Ho.
    assert (Hf : findInterval (intervalId iv) s = Some iv).
    { rewrite (@findInterval_single s iv (intervalId iv) Hi). now rewrite Nat.eqb_refl. }
    destruct (@handle_tick_probe s (intervalId iv) snt iv Hf ltac:(lia)) as (entry & E).
    rewrite E. clear E.
    match goal with
    | |- context [handle _ ?x (ProbeReply ?p _ _)] =>
        assert (Hfp : exists pr, findProbe p x = Some pr)
          by (unfold findProbe; fields; rewrite Hp; cbn [find];
              rewrite Nat.eqb_refl; eauto);
        destruct Hfp as [pr Hfp];
        destruct (@handle_reply_not_found x p o rcv pr Hfp Ho) as (entry' & E)
    end.
    rewrite E. clear E.
    match goal with
    | |- context [run _ ?x _] =>
        destruct (IH x) as (s' & Hrun & Hlen & Hrest)
    end; fields; try assumption; try lia.
    + rewrite Hp. cbn [filter probeId]. now rewrite Nat.eqb_refl.
    + exists s'. split; [exact Hrun|]. split; [|exact Hrest].
      rewrite Hlen. cbn [List.length]. lia.
Qed.

(** ** The parameters of every job are in range *)

Lemma stopPolling_parameters (s : State) :
  quality (stopPolling s) = quality s /\ width (stopPolling s) = width s /\
  height (stopPolling s) = height s /\ uploads (stopPolling s) = uploads s.
Proof. unfold stopPolling. destruct (pollingIntervalRef s); auto. Qed.

Lemma pollingEffect_parameters (s : State) :
  quality (pollingEffect s) = quality s /\ width (pollingEffect s) = width s /\
  height (pollingEffect s) = height s /\ uploads (pollingEffect s) = uploads s.
Proof.
  unfold pollingEffect. destruct (stopPolling_parameters s) as (Hq & Hw & Hh & Hu).
  destruct (truthy (lastUploadedKey (stopPolling s))); [|auto].
  destruct (getOutputKey _) as [outputKey logged].
  unfold setInterval. fields. auto.
Qed.

Lemma commit_parameters (k : option JSString) (d : State) :
  quality (commit k d) = quality d /\ width (commit k d) = width d /\
  height (commit k d) = height d /\ uploads (commit k d) = uploads d.
Proof.
  unfold commit. destruct (sameKey k (lastUploadedKey d)); [auto|].
  destruct (pollingEffect_parameters (stopPolling d)) as (-> & -> & -> & ->).
  apply stopPolling_parameters.
Qed.

Lemma ParametersValid_frame (s d : State) :
  quality d = quality s -> width d = width s -> height d = height s ->
  uploads d = uploads s -> ParametersValid s -> ParametersValid d.
Proof. unfold ParametersValid. intros -> -> -> ->. auto. Qed.

Lemma ParametersValid_stopPolling (s d : State) :
  quality d = quality (stopPolling s) -> width d = width (stopPolling s) ->
  height d = height (stopPolling s) -> uploads d = uploads (stopPolling s) ->
  ParametersValid s -> ParametersValid d.
Proof.
  destruct (stopPolling_parameters s) as (-> & -> & -> & ->).
  apply ParametersValid_frame.
Qed.

Lemma Forall_dropUpload (P : UploadFlow -> Prop) (f : nat) (s : State) :
  Forall P (uploads s) -> Forall P (uploads (dropUpload f s)).
Proof.
  fields. intros H. apply Forall_forall. intros fl Hin.
  apply filter_In in Hin as [Hin _]. revert fl Hin. now apply Forall_forall.
Qed.

Lemma findUpload_In (f : nat) (s : State) (fl : UploadFlow) :
  findUpload f s = Some fl -> In fl (uploads s).
Proof. unfold findUpload. intros H. now apply find_some in H. Qed.

Lemma handleUpload_catch_parameters (s : State) (message : JSString) :
  ParametersValid s -> ParametersValid (handleUpload_catch message s).
Proof.
  unfold handleUpload_catch.
  match goal with
  | |- _ -> ParametersValid (stopPolling ?x) =>
      intros H; apply (@ParametersValid_stopPolling x); try reflexivity; exact H
  end.
Qed.

Lemma dispatch_parameters (s d : State) (e : Event) :
  ParametersValid s ->
  dispatch maxPollingAttempts s e = Some d ->
  ParametersValid d.
Proof.
  intros H Hd. destruct e; cbn [dispatch] in Hd.
  - (* FileChange *)
    inversion Hd; subst d. unfold handleFileChange. destruct file; [|exact H].
    match goal with
    | |- ParametersValid (_ (stopPolling ?x)) =>
        apply (@ParametersValid_stopPolling x); try reflexivity; exact H
    end.
  - inversion Hd; subst d. exact H.
  - inversion Hd; subst d. exact H.
  - (* QualityInput *)
    inversion Hd; subst d. destruct H as [(_ & _ & Hw & Hh) Hf].
    destruct (handleQualityChange_range newQuality s) as [H1 H2].
    split; [repeat split; assumption|exact Hf].
  - inversion Hd; subst d. destruct H as [(_ & _ & Hw & Hh) Hf].
    destruct (handleQualityChange_range (quality s + 1)%float s) as [H1 H2].
    split; [repeat split; assumption|exact Hf].
  - inversion Hd; subst d. destruct H as [(_ & _ & Hw & Hh) Hf].
    destruct (handleQualityChange_range (quality s - 1)%float s) as [H1 H2].
    split; [repeat split; assumption|exact Hf].
  - (* DimensionInput *)
    inversion Hd; subst d. destruct H as [(Hq1 & Hq2 & Hw & Hh) Hf].
    destruct (handleDimensionChange_at_least_1 value s) as [H1 H2].
    destruct (eqString type (str "width")) eqn:Ew.
    + apply eqString_eq in Ew. subst type. split; [repeat split; assumption|exact Hf].
    + destruct (eqString type (str "height")) eqn:Eh.
      * apply eqString_eq in Eh. subst type. split; [repeat split; assumption|exact Hf].
      * unfold handleDimensionChange. rewrite Ew, Eh.
        split; [repeat split; assumption|exact Hf].
  - (* UploadClick *)
    inversion Hd; subst d. unfold handleUpload.
    destruct (selectedFile s) as [fileToUpload|]; [|exact H].
    destruct H as [Hp Hf]. unfold ParametersValid. fields.
    match goal with
    | |- context [stopPolling ?x] =>
        destruct (stopPolling_parameters x) as (Eq & Ew & Eh & Eu)
    end.
    rewrite Eq, Ew, Eh, Eu. fields.
    split; [exact Hp|]. constructor; [exact Hp|exact Hf].
  - (* BrokerReply *)
    destruct (findUpload flow s) as [fl|] eqn:Ef; [|discriminate].
    destruct (flowStage fl); [|discriminate]. inversion Hd; subst d.
    assert (Hdrop : ParametersValid (dropUpload flow s)).
    { destruct H as [Hp Hf]. split; [exact Hp|now apply Forall_dropUpload]. }
    destruct o; cbn [brokerContinuation].
    + destruct Hdrop as [Hp Hf]. split; [exact Hp|]. fields.
      constructor; [|exact Hf]. cbn.
      destruct H as [_ Hall]. apply findUpload_In in Ef.
      exact (proj1 (Forall_forall _ _) Hall fl Ef).
    + now apply handleUpload_catch_parameters.
    + now apply handleUpload_catch_parameters.
  - (* TransferReply *)
    destruct (findUpload flow s) as [fl|] eqn:Ef; [|discriminate].
    destruct (flowStage fl); [discriminate|]. inversion Hd; subst d.
    assert (Hdrop : ParametersValid (dropUpload flow s)).
    { destruct H as [Hp Hf]. split; [exact Hp|now apply Forall_dropUpload]. }
    destruct o; cbn [transferContinuation].
    + destruct (responseOk status); [exact Hdrop|].
      now apply handleUpload_catch_parameters.
    + now apply handleUpload_catch_parameters.
  - (* Tick *)
    destruct (findInterval t s) as [iv|]; [|discriminate]. inversion Hd; subst d.
    unfold intervalCallback. fields.
    destruct (maxPollingAttempts <? pollingAttemptsRef s + 1); [|exact H].
    match goal with
    | |- ParametersValid (stopPolling ?x) =>
        apply (@ParametersValid_stopPolling x); try reflexivity; exact H
    end.
  - (* ProbeReply *)
    destruct (findProbe p s) as [pr|]; [|discriminate]. inversion Hd; subst d.
    unfold probeContinuation. destruct o as [status|message]; [|exact H].
    destruct (responseOk status).
    + match goal with
      | |- ParametersValid (_ (_ (_ (stopPolling ?x)))) =>
          apply (@ParametersValid_stopPolling x); try reflexivity; exact H
      end.
    + destruct ((status =? 403) || (status =? 404))%N; exact H.
  - (* ResetClick *)
    inversion Hd; subst d. unfold resetClick.
    match goal with
    | |- ParametersValid (stopPolling ?x) =>
        apply (@ParametersValid_stopPolling x); try reflexivity; exact H
    end.
  - inversion Hd; subst d. unfold handleDownloadClick.
    destruct (truthy (resizedImageUrl s)); exact H.
  - inversion Hd; subst d. unfold downloadContinuation.
    destruct o as [[|] ?|?]; exact H.
Qed.

(** X21.  Every job is created with quality in [1, 100] and both
    dimensions at least 1: in every state the component can reach, the
    current parameters and those of every upload in flight are in range. *)
Lemma reachable_parameters (s : State) :
  reachable maxPollingAttempts s -> ParametersValid s.
Proof.
  induction 1 as [|s e s' _ IH Hh].
  - split; [repeat split|constructor].
  - unfold handle in Hh.
    destruct (dispatch maxPollingAttempts s e) as [d|] eqn:Hd; [|discriminate].
    cbn in Hh. inversion Hh; subst s'.
    destruct (commit_parameters (lastUploadedKey s) d) as (Hq & Hw & Hhh & Hu).
    apply (@ParametersValid_frame d); try assumption.
    exact (@dispatch_parameters s d e IH Hd).
Qed.

End PollingFacts.

(** ** The sample session *)

Lemma samplePollState_reachable : reachable sourceMaxPollingAttempts samplePollState.
Proof.
  apply (@reachable_run sourceMaxPollingAttempts sampleUpload initialState).
  - constructor.
  - vm_compute. reflexivity.
Qed.

Lemma sampleProbingState_reachable : reachable sourceMaxPollingAttempts sampleProbingState.
Proof.
  apply (@reachable_run sourceMaxPollingAttempts (sampleUpload ++ [Tick 1 1000]) initialState).
  - constructor.
  - vm_compute. reflexivity.
Qed.

Lemma samplePollState_fresh : freshPoll samplePollState 1.
Proof. repeat split. eexists. eexists. reflexivity. Qed.

(** The examples of the specification: with a budget of 3 and 404 answers,
    three probes are sent and the fourth tick ends the poll; an artifact
    found by the second probe ends the poll after two probes. *)
Example three_probes_then_exhausted :
  exists s,
    run 3 samplePollState
      [Tick 1 2000; ProbeReply 2 (HeadResponse 404) 2100;
       Tick 1 4000; ProbeReply 3 (HeadResponse 403) 4100;
       Tick 1 6000; ProbeReply 4 (HeadRejected (str "Failed to fetch")) 6100;
       Tick 1 8000] = Some s /\
    List.length (issued s) = 3 /\
    uploadStatus s = str "Image processing timed out. Please try again." /\
    isLoading s = false /\ intervals s = [] /\
    handle 3 s (Tick 1 10000) = None.
Proof. eexists. split; [vm_compute; reflexivity|]. repeat split. Qed.

Example found_on_second_probe :
  exists s,
    run sourceMaxPollingAttempts samplePollState
      [Tick 1 2000; ProbeReply 2 (HeadResponse 404) 2100;
       Tick 1 4000; ProbeReply 3 (HeadResponse 200) 4100] = Some s /\
    List.length (issued s) = 2 /\
    resizedImageUrl s = Some (sampleUrl ++ str "?t=4100") /\
    uploadStatus s = str "Resized image loaded." /\
    isLoading s = false /\
    handle sourceMaxPollingAttempts s (Tick 1 6000) = None.
Proof. eexists. split; [vm_compute; reflexivity|]. repeat split. Qed.

(** The budget of the component: fifteen probes, and the sixteenth tick
    ends the poll. *)
Example fifteen_probes_then_exhausted :
  exists s,
    run sourceMaxPollingAttempts samplePollState (List.map (Tick 1) (repeat 0%N 16)) = Some s /\
    List.length (issued s) = 15 /\ exhausted s.
Proof. eexists. split; [vm_compute; reflexivity|]. repeat split. Qed.

(** A key of neither shape is no fault for the caller: the effect polls the
    fallback location. *)
Example unrecognized_key_is_polled :
  exists s,
    run sourceMaxPollingAttempts initialState
      [FileChange (Some sampleFile); UploadClick;
       BrokerReply 0 (BrokerOk (str "https://upload.example/put") (str "garbage"));
       TransferReply 0 (TransferResponse 200 (str "OK") [])] = Some s /\
    isLoading s = true /\
    intervals s = [{| intervalId := 1; intervalKey := str "resized-unknown/garbage";
                      intervalUrl := publicUrlOf (str "resized-unknown/garbage") |}].
Proof. eexists. split; [vm_compute; reflexivity|]. split; reflexivity. Qed.

Lemma poll_without_success_exhausts_witness :
  freshPoll samplePollState 1 /\
  exists s',
    run 3 samplePollState (List.map (Tick 1) [2000; 4000; 6000; 8000]%N) = Some s' /\
    exhausted s' /\
    List.length (issued s') = List.length (issued samplePollState) + 3.
Proof.
  split; [exact samplePollState_fresh|].
  apply (proj2 (@poll_without_success_exhausts 3 samplePollState 1 samplePollState_fresh)).
  reflexivity.
Defined.

Lemma single_poll_timer_witness :
  reachable sourceMaxPollingAttempts samplePollState /\
  List.length (intervals samplePollState) <= 1 /\
  timerInvariant samplePollState /\
  (forall e s', handle sourceMaxPollingAttempts samplePollState e = Some s' ->
    (startsOver samplePollState e = true ->
       intervals s' = [] /\ pollingIntervalRef s' = None) /\
    (forall iv, In iv (intervals s') -> ~ In iv (intervals samplePollState) ->
       intervals s' = [iv] /\ pollingIntervalRef s' = Some (intervalId iv) /\
       pollingAttemptsRef s' = 0) /\
    (startsOver samplePollState e = true -> probes s' = probes samplePollState)).
Proof.
  split; [exact samplePollState_reachable|].
  destruct (@single_poll_timer sourceMaxPollingAttempts samplePollState
              samplePollState_reachable) as (H1 & H2 & H3 & _).
  split; [exact H1|]. split; [exact H2|exact H3].
Defined.

(** C3, as stated, fails: starting over cancels the timer of the poll in
    flight, not its requests.  In this session, which only uses what the
    page offers, the first probe of the first job is still in flight when the
    poll of the second job is running on timer 5.  When its response then
    reports success, it clears timer 5 and sets the image of the first job as
    the result of the second. *)
Lemma late_probe_ends_the_next_poll :
  offeredRun sourceMaxPollingAttempts initialState sampleTwoJobs = true /\
  exists s1 s2,
    run sourceMaxPollingAttempts initialState sampleTwoJobs = Some s1 /\
    lastUploadedKey s1 = Some (str "q85_w128_h128/b.png") /\
    isLoading s1 = true /\
    pollingIntervalRef s1 = Some 5 /\
    intervals s1 =
      [{| intervalId := 5; intervalKey := str "resized-q85_w128_h128/b.jpeg";
          intervalUrl := publicUrlOf (str "resized-q85_w128_h128/b.jpeg") |}] /\
    probes s1 = [{| probeId := 2; probeUrl := sampleUrl;
                    probeRequest := sampleUrl ++ str "?t=2000" |}] /\
    handle sourceMaxPollingAttempts s1 (ProbeReply 2 (HeadResponse 200) 9000) = Some s2 /\
    intervals s2 = [] /\ pollingIntervalRef s2 = None /\ isLoading s2 = false /\
    lastUploadedKey s2 = Some (str "q85_w128_h128/b.png") /\
    resizedImageUrl s2 = Some (sampleUrl ++ str "?t=9000") /\
    forall t now, handle sourceMaxPollingAttempts s2 (Tick t now) = None.
Proof.
  split; [vm_compute; reflexivity|].
  eexists. eexists. split; [vm_compute; reflexivity|].
  split; [reflexivity|]. split; [reflexivity|]. split; [reflexivity|].
  split; [reflexivity|]. split; [reflexivity|].
  split; [vm_compute; reflexivity|].
  split; [reflexivity|]. split; [reflexivity|]. split; [reflexivity|].
  split; [reflexivity|]. split; [reflexivity|].
  intros t now. reflexivity.
Qed.



Lemma found_stops_poll_witness :
  reachable sourceMaxPollingAttempts sampleProbingState /\
  responseOk 200 = true /\
  handle sourceMaxPollingAttempts sampleProbingState (ProbeReply 2 (HeadResponse 200) 1500)
    = Some sampleFoundState /\
  pollingIntervalRef sampleFoundState = None /\ intervals sampleFoundState = [] /\
  (forall e, isPollEvent e = true ->
             handle sourceMaxPollingAttempts sampleFoundState e = None).
Proof.
  assert (H : handle sourceMaxPollingAttempts sampleProbingState
                (ProbeReply 2 (HeadResponse 200) 1500) = Some sampleFoundState)
    by (vm_compute; reflexivity).
  split; [exact sampleProbingState_reachable|]. split; [reflexivity|].
  split; [exact H|].
  pose proof (@found_stops_poll sourceMaxPollingAttempts sampleProbingState
                sampleFoundState 2 200%N 1500%N sampleProbingState_reachable eq_refl H)
    as (_ & _ & _ & Hr & Hi & _ & _ & Hq).
  split; [exact Hr|]. split; [exact Hi|]. exact (Hq eq_refl).
Defined.

(** C6, as stated, fails when probes overlap.  The timer fires again while
    the first probe is still in flight, so the second probe is sent; the
    first probe then finds the artifact and the poll is stopped; and when the
    second response arrives it sets the resized image URL once more. *)
Lemma overlapping_probe_after_success :
  exists s1 s2,
    run sourceMaxPollingAttempts samplePollState
      [Tick 1 1000; Tick 1 3000; ProbeReply 2 (HeadResponse 200) 3500] = Some s1 /\
    resizedImageUrl s1 = Some (sampleUrl ++ str "?t=3500") /\
    pollingIntervalRef s1 = None /\
    List.length (issued s1) = 2 /\
    handle sourceMaxPollingAttempts s1 (ProbeReply 3 (HeadResponse 200) 4200) = Some s2 /\
    resizedImageUrl s2 = Some (sampleUrl ++ str "?t=4200") /\
    resizedImageUrl s2 <> resizedImageUrl s1.
Proof.
  eexists. eexists. split; [vm_compute; reflexivity|].
  split; [reflexivity|]. split; [reflexivity|]. split; [reflexivity|].
  split; [vm_compute; reflexivity|]. split; [reflexivity|].
  vm_compute. discriminate.
Qed.

Lemma unexpected_outcome_is_absorbed_witness :
  probeFound (HeadResponse 500) = false /\
  exists s',
    handle sourceMaxPollingAttempts sampleProbingState (ProbeReply 2 (HeadResponse 500) 1500)
      = Some s' /\
    intervals s' = intervals sampleProbingState /\
    pollingIntervalRef s' = Some 1 /\
    pollingAttemptsRef s' = 1 /\
    isLoading s' = true.
Proof.
  split; [reflexivity|]. eexists.
  assert (H : handle sourceMaxPollingAttempts sampleProbingState
                (ProbeReply 2 (HeadResponse 500) 1500) = Some _)
    by (vm_compute; reflexivity).
  split; [exact H|].
  pose proof (@unexpected_outcome_is_absorbed sourceMaxPollingAttempts sampleProbingState
                _ 2 (HeadResponse 500) 1500%N eq_refl H)
    as (_ & _ & Hi & Hr & Ha & Hl & _).
  split; [exact Hi|]. split; [exact Hr|]. split; [exact Ha|exact Hl].
Defined.

(** * Further properties of the key functions *)

Lemma NewShape_unique (key p1 n1 p2 n2 : JSString) :
  NewShape key p1 n1 -> NewShape key p2 n2 -> p1 = p2 /\ n1 = n2.
Proof.
  intros H1 H2. apply matchAnchored_new in H1, H2.
  rewrite H1 in H2. inversion H2. auto.
Qed.

Lemma LegacyShape_unique (key p1 n1 p2 n2 : JSString) :
  LegacyShape key p1 n1 -> LegacyShape key p2 n2 -> p1 = p2 /\ n1 = n2.
Proof.
  intros H1 H2. apply matchAnchored_old in H1, H2.
  rewrite H1 in H2. inversion H2. auto.
Qed.

(** X1.  The two patterns of getOutputKey accept exactly the keys of the
    new and of the legacy shape and capture the prefix and the file segment;
    a key has at most one reading: its captures are determined, and no key
    is of both shapes. *)
Theorem patterns_accept_the_shapes (key prefix name : JSString) :
  (matchAnchored newPrefixPattern key = Some (prefix, name) <-> NewShape key prefix name) /\
  (matchAnchored oldPrefixPattern key = Some (prefix, name) <-> LegacyShape key prefix name) /\
  (forall p n, NewShape key prefix name -> NewShape key p n -> p = prefix /\ n = name) /\
  (forall p n, LegacyShape key prefix name -> LegacyShape key p n -> p = prefix /\ n = name) /\
  (forall p n, NewShape key prefix name -> ~ LegacyShape key p n).
Proof.
  split; [apply matchAnchored_new|]. split; [apply matchAnchored_old|].
  split; [|split].
  - intros p n H1 H2. destruct (NewShape_unique H2 H1). auto.
  - intros p n H1 H2. destruct (LegacyShape_unique H2 H1). auto.
  - intros p n Hnew Hold. apply legacy_not_new in Hold.
    apply matchAnchored_new in Hnew. congruence.
Qed.

Lemma beforeLastDot_split (name stem : JSString) :
  beforeLastDot name = Some stem ->
  exists ext, NoDot ext /\ name = stem ++ dot :: ext.
Proof.
  revert stem. induction name as [|c name IH]; intros stem H; [discriminate|].
  cbn in H. destruct (beforeLastDot name) as [stem'|] eqn:E.
  - inversion H; subst. destruct (IH _ eq_refl) as (ext & Hext & ->).
    exists ext. auto.
  - destruct (N.eqb_spec c dot); [|discriminate]. inversion H; subst.
    exists name. split; [|reflexivity].
    clear -E. unfold NoDot. induction name as [|x name IH]; [reflexivity|].
    cbn in E |- *. destruct (beforeLastDot name); [discriminate|].
    destruct (x =? dot)%N; [discriminate|]. cbn. now apply IH.
Qed.

(** X2.  The base name is the file name itself, or the file name without
    its last dot and the dot-free text after it; it is never longer than the
    file name and is empty only for the empty file name. *)
Theorem baseName_decomposition (name : JSString) :
  (baseName name = name \/
   exists ext, NoDot ext /\ baseName name <> [] /\ name = baseName name ++ dot :: ext) /\
  List.length (baseName name) <= List.length name /\
  (baseName name = [] <-> name = []).
Proof.
  rewrite baseName_spec. unfold baseNameOf.
  destruct (beforeLastDot name) as [[|c stem]|] eqn:E.
  - repeat split; auto.
  - apply beforeLastDot_split in E as (ext & Hext & ->). split; [|split].
    + right. exists ext. repeat split; auto. discriminate.
    + rewrite length_app. cbn. lia.
    + split; [discriminate|]. intros H. destruct stem; discriminate H.
  - repeat split; auto.
Qed.

(** X3.  The extension of the uploaded file is forgotten: two keys with the
    same prefix and the same text in front of the last dot of their file
    segments, whatever their extensions, get the same output key. *)
Theorem extension_is_forgotten (key1 key2 prefix stem ext1 ext2 : JSString) :
  stem <> [] -> NoDot ext1 -> NoDot ext2 ->
  NewShape key1 prefix (stem ++ dot :: ext1) \/ LegacyShape key1 prefix (stem ++ dot :: ext1) ->
  NewShape key2 prefix (stem ++ dot :: ext2) \/ LegacyShape key2 prefix (stem ++ dot :: ext2) ->
  fst (getOutputKey key1) = str "resized-" ++ prefix ++ str "/" ++ stem ++ str ".jpeg" /\
  fst (getOutputKey key2) = fst (getOutputKey key1).
Proof.
  intros Hs H1 H2 K1 K2.
  assert (E : forall key ext, NoDot ext ->
            NewShape key prefix (stem ++ dot :: ext) \/
            LegacyShape key prefix (stem ++ dot :: ext) ->
            fst (getOutputKey key)
            = str "resized-" ++ prefix ++ str "/" ++ stem ++ str ".jpeg").
  { intros key ext He [K|K].
    - now rewrite (getOutputKey_new_shape K), baseNameOf_stem.
    - now rewrite (getOutputKey_legacy_shape K), baseNameOf_stem. }
  rewrite (E key1 ext1 H1 K1), (E key2 ext2 H2 K2). auto.
Qed.

Lemma new_shape_a_png :
  NewShape (str "q85_w128_h128/a.png") (str "q85_w128_h128") (str "a" ++ dot :: str "png").
Proof.
  exists (str "85"), (str "128"), (str "128"), [].
  repeat split; try discriminate; reflexivity.
Qed.

Lemma new_shape_a_gif :
  NewShape (str "q85_w128_h128/a.gif") (str "q85_w128_h128") (str "a" ++ dot :: str "gif").
Proof.
  exists (str "85"), (str "128"), (str "128"), [].
  repeat split; try discriminate; reflexivity.
Qed.

Lemma extension_is_forgotten_witness :
  fst (getOutputKey (str "q85_w128_h128/a.png"))
    = str "resized-" ++ str "q85_w128_h128" ++ str "/" ++ str "a" ++ str ".jpeg" /\
  fst (getOutputKey (str "q85_w128_h128/a.gif")) = fst (getOutputKey (str "q85_w128_h128/a.png")).
Proof.
  apply (@extension_is_forgotten (str "q85_w128_h128/a.png") (str "q85_w128_h128/a.gif")
           (str "q85_w128_h128") (str "a") (str "png") (str "gif")).
  - discriminate.
  - reflexivity.
  - reflexivity.
  - left. exact new_shape_a_png.
  - left. exact new_shape_a_gif.
Defined.

Lemma split_nonempty (sep : CodeUnit) (s : JSString) : split sep s <> [].
Proof.
  destruct s as [|c r]; cbn; [discriminate|].
  destruct (c =? sep)%N; [discriminate|]. destruct (split sep r); discriminate.
Qed.

Lemma split_no_separator (s : JSString) : NoSlash s -> split slash s = [s].
Proof.
  unfold NoSlash. induction s as [|c s IH]; [reflexivity|].
  cbn. intros H. apply andb_prop in H as [Hc Hs]. apply negb_true_iff in Hc.
  now rewrite Hc, (IH Hs).
Qed.

Lemma split_last (dir file : JSString) :
  NoSlash file ->
  last (split slash (dir ++ slash :: file)) [] = file /\
  2 <= List.length (split slash (dir ++ slash :: file)).
Proof.
  intros Hf. induction dir as [|c dir [IHl IHn]].
  - cbn. rewrite (split_no_separator Hf). cbn. split; [reflexivity|lia].
  - cbn [app split]. destruct (c =? slash)%N.
    + destruct (split slash (dir ++ slash :: file)) as [|x xs] eqn:E;
        [cbn in IHn; lia|].
      split; [exact IHl|cbn in IHn |- *; lia].
    + destruct (split slash (dir ++ slash :: file)) as [|x [|y ys]] eqn:E;
        try (cbn in IHn; lia).
      split; [exact IHl|cbn in IHn |- *; lia].
Qed.

Lemma originalFilename_after_slash (dir file : JSString) :
  NoSlash file -> getOriginalFilenameFromKey (Some (dir ++ slash :: file)) = file.
Proof.
  intros Hf. unfold getOriginalFilenameFromKey.
  destruct (split_last dir Hf) as [Hl Hn].
  assert (Ht : truthy (Some (dir ++ slash :: file)) = true) by (destruct dir; reflexivity).
  rewrite Ht. cbn [negb].
  destruct (Nat.ltb_spec 1 (List.length (split slash (dir ++ slash :: file))));
    [exact Hl|lia].
Qed.

Lemma originalFilename_no_slash (key : JSString) :
  key <> [] -> NoSlash key ->
  getOriginalFilenameFromKey (Some key) = str "resized_" ++ key ++ str ".jpeg".
Proof.
  intros Hk Hs. unfold getOriginalFilenameFromKey.
  destruct key as [|c key]; [contradiction|]. cbn [truthy negb].
  now rewrite (split_no_separator Hs).
Qed.

(** X4.  getOriginalFilenameFromKey returns the text after the last slash
    of a key that has a slash (the empty string when the key ends in a
    slash); a key without a slash is wrapped as [resized_<key>.jpeg]; and a
    null or empty key gives [resized_image.jpeg]. *)
Theorem original_filename_cases :
  (forall dir file : JSString, NoSlash file ->
     getOriginalFilenameFromKey (Some (dir ++ slash :: file)) = file) /\
  (forall key : JSString, key <> [] -> NoSlash key ->
     getOriginalFilenameFromKey (Some key) = str "resized_" ++ key ++ str ".jpeg") /\
  getOriginalFilenameFromKey None = str "resized_image.jpeg" /\
  getOriginalFilenameFromKey (Some []) = str "resized_image.jpeg".
Proof.
  split; [exact originalFilename_after_slash|].
  split; [exact originalFilename_no_slash|]. split; reflexivity.
Qed.

Lemma downloadName_after_slash (dir file : JSString) :
  NoSlash file ->
  downloadName (Some (dir ++ slash :: file)) = str "resized_" ++ baseNameOf file ++ str ".jpeg".
Proof.
  intros Hf. unfold downloadName.
  now rewrite (originalFilename_after_slash dir Hf), baseName_spec.
Qed.

(** X5.  The name of the downloaded file is [resized_<base>.jpeg] with the
    base name of the text after the key's last slash; for a key without a
    slash the prefix comes twice, [resized_resized_<key>.jpeg], and for a
    null key the name is [resized_resized_image.jpeg]. *)
Theorem download_name_cases :
  (forall dir file : JSString, NoSlash file ->
     downloadName (Some (dir ++ slash :: file))
     = str "resized_" ++ baseNameOf file ++ str ".jpeg") /\
  (forall key : JSString, key <> [] -> NoSlash key ->
     downloadName (Some key) = str "resized_resized_" ++ key ++ str ".jpeg") /\
  downloadName None = str "resized_resized_image.jpeg".
Proof.
  split; [|split].
  - exact downloadName_after_slash.
  - intros key Hk Hs. unfold downloadName.
    rewrite (originalFilename_no_slash Hk Hs), baseName_spec.
    replace (str "resized_" ++ key ++ str ".jpeg")
      with ((str "resized_" ++ key) ++ dot :: str "jpeg")
      by (now rewrite <- app_assoc).
    rewrite baseNameOf_stem by (reflexivity || discriminate).
    cbn. reflexivity.
  - reflexivity.
Qed.

(** X6.  For a key [<prefix>/<name>] of the new or the legacy shape whose
    name has neither a slash nor a line terminator, the three names agree:
    the file name shown is [<name>], and the output key and the download
    name are built on the same base name. *)
Theorem names_agree (key prefix name : JSString) :
  NewShape key prefix name \/ LegacyShape key prefix name ->
  key = prefix ++ str "/" ++ name ->
  NoSlash name ->
  getOriginalFilenameFromKey (Some key) = name /\
  fst (getOutputKey key)
    = str "resized-" ++ prefix ++ str "/" ++ baseNameOf name ++ str ".jpeg" /\
  downloadName (Some key) = str "resized_" ++ baseNameOf name ++ str ".jpeg".
Proof.
  intros Hshape -> Hs. split; [|split].
  - exact (originalFilename_after_slash prefix Hs).
  - destruct Hshape as [H|H].
    + now rewrite (getOutputKey_new_shape H).
    + now rewrite (getOutputKey_legacy_shape H).
  - exact (downloadName_after_slash prefix Hs).
Qed.

Lemma names_agree_witness :
  getOriginalFilenameFromKey (Some (str "q85_w128_h128" ++ str "/" ++ str "a.png"))
    = str "a.png" /\
  fst (getOutputKey (str "q85_w128_h128" ++ str "/" ++ str "a.png"))
    = str "resized-" ++ str "q85_w128_h128" ++ str "/" ++ baseNameOf (str "a.png")
        ++ str ".jpeg" /\
  downloadName (Some (str "q85_w128_h128" ++ str "/" ++ str "a.png"))
    = str "resized_" ++ baseNameOf (str "a.png") ++ str ".jpeg".
Proof.
  apply (@names_agree (str "q85_w128_h128" ++ str "/" ++ str "a.png")
           (str "q85_w128_h128") (str "a.png")).
  - left. exact new_shape_a_png.
  - reflexivity.
  - reflexivity.
Defined.

(** * Further properties of the parameter handlers *)

Section MoreNumbers.

Open Scope float_scope.

Lemma SFcompare_refl (f : spec_float) :
  f <> S754_nan -> SFcompare f f = Some Eq.
Proof.
  destruct f as [sg|sg| |sg m e]; intros H; try reflexivity.
  - destruct sg; reflexivity.
  - contradiction.
  - cbn. rewrite Z.compare_refl, Pos.compare_cont_refl. destruct sg; reflexivity.
Qed.

Lemma SFcompare_swap (x y : spec_float) :
  SFcompare y x = option_map CompOpp (SFcompare x y).
Proof.
  destruct x as [s1|s1| |s1 m1 e1], y as [s2|s2| |s2 m2 e2]; cbn;
    try reflexivity; try (destruct s1; reflexivity); try (destruct s2; reflexivity);
    try (destruct s1, s2; reflexivity).
  rewrite (Z.compare_antisym e1 e2).
  change (Pos.compare_cont Eq m2 m1) with (Pos.compare_cont (CompOpp Eq) m2 m1).
  rewrite <- (Pos.compare_cont_antisym m1 m2 Eq).
  destruct s1, s2, (e1 ?= e2)%Z; cbn; rewrite ?CompOpp_involutive; reflexivity.
Qed.

Lemma ltb_not_nan (x y : float) :
  (x <? y) = true -> PrimFloat.is_nan x = false /\ PrimFloat.is_nan y = false.
Proof.
  unfold PrimFloat.is_nan. rewrite FloatAxioms.ltb_spec, !FloatAxioms.eqb_spec.
  unfold SFltb, SFeqb. intros H.
  assert (Hx : Prim2SF x <> S754_nan /\ Prim2SF y <> S754_nan).
  { destruct (Prim2SF x), (Prim2SF y); cbn in H; split; discriminate. }
  destruct Hx as [Hx Hy]. now rewrite (SFcompare_refl Hx), (SFcompare_refl Hy).
Qed.

Lemma ltb_asym (x y : float) : (x <? y) = true -> (y <? x) = false.
Proof.
  rewrite !FloatAxioms.ltb_spec. unfold SFltb.
  rewrite (SFcompare_swap (Prim2SF x) (Prim2SF y)).
  destruct (SFcompare (Prim2SF x) (Prim2SF y)) as [[]|]; cbn; congruence.
Qed.

Lemma ltb_1_nonzero (v : float) : (1 <? v) = true -> (v =? 0) = false.
Proof.
  rewrite FloatAxioms.ltb_spec, FloatAxioms.eqb_spec.
  set (one := Prim2SF 1). vm_compute in one. subst one.
  set (z := Prim2SF 0). vm_compute in z. subst z.
  destruct (Prim2SF v) as [sg|sg| |sg m e]; try destruct sg;
    unfold SFltb, SFeqb, SFcompare; intros H; try discriminate H; reflexivity.
Qed.

Lemma ltb_1_ltb_100 (v : float) : (v <? 1) = true -> (v <? 100) = true.
Proof.
  rewrite !FloatAxioms.ltb_spec.
  set (one := Prim2SF 1). vm_compute in one. subst one.
  set (h := Prim2SF 100). vm_compute in h. subst h.
  destruct (Prim2SF v) as [sg|sg| |sg m e]; try destruct sg;
    unfold SFltb, SFcompare; intros H; try discriminate H; try reflexivity.
  assert (E : (e ?= -46)%Z = Lt).
  { apply Z.compare_lt_iff. destruct (e ?= -52)%Z eqn:E52; try discriminate H.
    - apply Z.compare_eq in E52. lia.
    - rewrite Z.compare_lt_iff in E52. lia. }
  now rewrite E.
Qed.

End MoreNumbers.

(** X7.  handleDimensionChange stores 128 for NaN, the value itself for
    every value above 1 (there is no upper bound and no rounding; infinity
    is stored as it is), and 1 for everything else (zero and the negative
    numbers included); width and height are treated alike. *)
Theorem dimension_clamp_cases (value : float) (s : State) :
  (isNaN value = true ->
     width (handleDimensionChange value (str "width") s) = 128%float) /\
  ((1 <? value)%float = true ->
     width (handleDimensionChange value (str "width") s) = value) /\
  (isNaN value = false -> (1 <? value)%float = false ->
     width (handleDimensionChange value (str "width") s) = 1%float) /\
  height (handleDimensionChange value (str "height") s)
    = width (handleDimensionChange value (str "width") s).
Proof.
  unfold handleDimensionChange, Math_max, isNaN.
  change (eqString (str "width") (str "width")) with true.
  change (eqString (str "height") (str "width")) with false.
  change (eqString (str "height") (str "height")) with true.
  cbn [width height setWidth setHeight].
  change (PrimFloat.is_nan 1) with false. cbn [orb].
  change (PrimFloat.is_zero 1 && PrimFloat.get_sign 1)%bool with false. cbn iota.
  split; [|split; [|split; [|reflexivity]]].
  - intros Hnan. rewrite Hnan. reflexivity.
  - intros Hlt. destruct (ltb_not_nan Hlt) as [_ Hnan].
    rewrite Hnan, Hlt, Hnan, (ltb_1_nonzero Hlt). reflexivity.
  - intros Hnan Hlt. rewrite Hnan, Hlt. destruct (value <? 1)%float; reflexivity.
Qed.

(** X8.  handleQualityChange stores 85 for NaN, 1 for every value below 1,
    100 for every value above 100, the value itself for every value strictly
    between 1 and 100 (no rounding), and in every case a number from 1 to
    100. *)
Theorem quality_clamp_cases (newQuality : float) (s : State) :
  (isNaN newQuality = true -> quality (handleQualityChange newQuality s) = 85%float) /\
  ((newQuality <? 1)%float = true -> quality (handleQualityChange newQuality s) = 1%float) /\
  ((100 <? newQuality)%float = true ->
     quality (handleQualityChange newQuality s) = 100%float) /\
  ((1 <? newQuality)%float = true -> (newQuality <? 100)%float = true ->
     quality (handleQualityChange newQuality s) = newQuality) /\
  (1 <=? quality (handleQualityChange newQuality s))%float = true /\
  (quality (handleQualityChange newQuality s) <=? 100)%float = true.
Proof.
  split; [|split; [|split; [|split; [|apply handleQualityChange_range]]]];
    unfold handleQualityChange, Math_max, Math_min, isNaN; cbn [quality setQuality];
    change (PrimFloat.is_nan 100) with false; change (PrimFloat.is_nan 1) with false;
    cbn [orb];
    change (PrimFloat.is_zero 1 && PrimFloat.get_sign 1)%bool with false; cbn iota.
  - intros Hnan. rewrite Hnan. reflexivity.
  - intros Hlt. destruct (ltb_not_nan Hlt) as [Hnan _].
    rewrite Hnan, (ltb_asym (ltb_1_ltb_100 Hlt)), (ltb_1_ltb_100 Hlt).
    rewrite Hnan, (ltb_asym Hlt), Hlt. reflexivity.
  - intros Hlt. destruct (ltb_not_nan Hlt) as [_ Hnan].
    rewrite Hnan, Hlt. reflexivity.
  - intros H1 H100. destruct (ltb_not_nan H1) as [_ Hnan].
    rewrite Hnan, (ltb_asym H100), H100, Hnan, H1, Hnan. reflexivity.
Qed.

(** * Further properties of the upload and polling state machine *)

Section MorePolling.

Variable maxPollingAttempts : nat.

(** [stopPolling] and the effect touch no state variable: they change the
    two refs, the timers and the console only. *)
Lemma stopPolling_state (s : State) :
  selectedFile (stopPolling s) = selectedFile s /\
  uploadStatus (stopPolling s) = uploadStatus s /\
  isLoading (stopPolling s) = isLoading s /\
  resizedImageUrl (stopPolling s) = resizedImageUrl s /\
  originalPreviewUrl (stopPolling s) = originalPreviewUrl s /\
  lastUploadedKey (stopPolling s) = lastUploadedKey s /\
  nextHandle (stopPolling s) = nextHandle s.
Proof. unfold stopPolling. destruct (pollingIntervalRef s); repeat split. Qed.

Lemma pollingEffect_state (s : State) :
  selectedFile (pollingEffect s) = selectedFile s /\
  uploadStatus (pollingEffect s) = uploadStatus s /\
  isLoading (pollingEffect s) = isLoading s /\
  resizedImageUrl (pollingEffect s) = resizedImageUrl s /\
  originalPreviewUrl (pollingEffect s) = originalPreviewUrl s /\
  lastUploadedKey (pollingEffect s) = lastUploadedKey s.
Proof.
  unfold pollingEffect.
  destruct (stopPolling_state s) as (H1 & H2 & H3 & H4 & H5 & H6 & _).
  destruct (truthy (lastUploadedKey (stopPolling s))); [|auto 10].
  destruct (getOutputKey _) as [outputKey logged].
  unfold setInterval. fields. auto 10.
Qed.

Lemma commit_state (k : option JSString) (d : State) :
  selectedFile (commit k d) = selectedFile d /\
  uploadStatus (commit k d) = uploadStatus d /\
  isLoading (commit k d) = isLoading d /\
  resizedImageUrl (commit k d) = resizedImageUrl d /\
  originalPreviewUrl (commit k d) = originalPreviewUrl d /\
  lastUploadedKey (commit k d) = lastUploadedKey d.
Proof.
  unfold commit. destruct (sameKey k (lastUploadedKey d)); [auto 10|].
  destruct (pollingEffect_state (stopPolling d)) as (-> & -> & -> & -> & -> & ->).
  destruct (stopPolling_state d) as (H1 & H2 & H3 & H4 & H5 & H6 & _). auto 10.
Qed.

(** The timer the effect starts polls the location derived from the key. *)
Lemma pollingEffect_target (s : State) (key : JSString) :
  intervals s = [] -> pollingIntervalRef s = None ->
  lastUploadedKey s = Some key -> key <> [] ->
  pollingIntervalRef (pollingEffect s) = Some (nextHandle s) /\
  pollingAttemptsRef (pollingEffect s) = 0 /\
  intervals (pollingEffect s) =
    [{| intervalId := nextHandle s; intervalKey := fst (getOutputKey key);
        intervalUrl := publicUrlOf (fst (getOutputKey key)) |}].
Proof.
  intros Hi Hr Hk Hne. unfold pollingEffect, stopPolling. rewrite Hr, Hk.
  destruct key as [|c key]; [contradiction|]. cbn [truthy].
  destruct (getOutputKey (c :: key)) as [outputKey logged].
  unfold setInterval. fields. rewrite Hi. auto.
Qed.

Lemma commit_starts_poll (k0 : option JSString) (d : State) (key : JSString) :
  timerInvariant d ->
  lastUploadedKey d = Some key -> key <> [] -> k0 <> Some key ->
  exists t,
    pollingIntervalRef (commit k0 d) = Some t /\
    pollingAttemptsRef (commit k0 d) = 0 /\
    intervals (commit k0 d) =
      [{| intervalId := t; intervalKey := fst (getOutputKey key);
          intervalUrl := publicUrlOf (fst (getOutputKey key)) |}].
Proof.
  intros Ht Hk Hne Hdiff. unfold commit.
  destruct (sameKey k0 (lastUploadedKey d)) eqn:E.
  { apply sameKey_eq in E. congruence. }
  destruct (@stopPolling_timers d Ht) as [Hi Hr].
  exists (nextHandle (stopPolling d)).
  apply pollingEffect_target; auto.
  now rewrite stopPolling_lastUploadedKey.
Qed.

Lemma commit_no_poll (k0 : option JSString) (d : State) :
  timerInvariant d ->
  intervals d = [] -> pollingIntervalRef d = None ->
  truthy (lastUploadedKey d) = false ->
  intervals (commit k0 d) = [] /\ pollingIntervalRef (commit k0 d) = None.
Proof.
  intros Ht Hi Hr Hk.
  destruct (@commit_spec k0 d Ht) as [[_ ->]|(_ & _ & _ & [(_ & H1 & H2)|(H & _)])];
    auto; congruence.
Qed.



(** X10.  When the transfer succeeds and the broker's key is not empty (and
    not the key already recorded), the key is recorded, the selection is
    cleared, and exactly one poll is started, on the location derived from
    that key by getOutputKey, with the attempt counter at 0; the loading flag
    is left as it was. *)
Theorem transfer_success_starts_poll
        (s s' : State) (f : nat) (fl : UploadFlow) (uploadUrl key : JSString)
        (status : N) (statusText errorText : JSString) :
  reachable maxPollingAttempts s ->
  findUpload f s = Some fl ->
  flowStage fl = AwaitingTransfer uploadUrl key ->
  responseOk status = true ->
  key <> [] ->
  lastUploadedKey s <> Some key ->
  handle maxPollingAttempts s (TransferReply f (TransferResponse status statusText errorText))
    = Some s' ->
  lastUploadedKey s' = Some key /\ selectedFile s' = None /\
  isLoading s' = isLoading s /\
  uploadStatus s' = str "Upload successful! Waiting for resized version..." /\
  pollingAttemptsRef s' = 0 /\
  exists t,
    pollingIntervalRef s' = Some t /\
    intervals s' =
      [{| intervalId := t; intervalKey := fst (getOutputKey key);
          intervalUrl := publicUrlOf (fst (getOutputKey key)) |}].
Proof.
  intros Hreach Hf Hst Hok Hne Hdiff Hh.
  destruct (@reachable_Inv maxPollingAttempts s Hreach) as (Ht & _ & _).
  unfold handle, dispatch in Hh. rewrite Hf, Hst in Hh.
  cbn [option_map transferContinuation] in Hh. rewrite Hok in Hh.
  inversion Hh; subst s'. clear Hh.
  match goal with
  | |- context [commit _ ?d] =>
      destruct (commit_state (lastUploadedKey s) d) as (C1 & C2 & C3 & _ & _ & C6);
      destruct (@commit_starts_poll (lastUploadedKey s) d key Ht eq_refl Hne Hdiff)
        as (t & Hr & Ha & Hi)
  end.
  rewrite C1, C2, C3, C6. repeat split; try assumption. exists t. auto.
Qed.


(** A tick beyond the budget ends the poll and touches nothing else of the
    state the page is rendered from. *)
Lemma timeout_tick_state (s : State) (t : TimerId) (now : N) (iv : Interval) :
  timerInvariant s ->
  findInterval t s = Some iv ->
  maxPollingAttempts <= pollingAttemptsRef s ->
  exists s',
    handle maxPollingAttempts s (Tick t now) = Some s' /\
    exhausted s' /\
    selectedFile s' = selectedFile s /\
    resizedImageUrl s' = resizedImageUrl s /\
    originalPreviewUrl s' = originalPreviewUrl s /\
    lastUploadedKey s' = lastUploadedKey s.
Proof.
  intros Ht Hf Hle. unfold handle, dispatch. rewrite Hf. cbn [option_map].
  unfold intervalCallback. fields.
  destruct (Nat.ltb_spec maxPollingAttempts (pollingAttemptsRef s + 1)); [|lia].
  match goal with
  | |- context [stopPolling ?x] =>
      destruct (stopPolling_state x) as (H1 & H2 & H3 & H4 & H5 & H6 & _);
      destruct (@stopPolling_timers x Ht) as [Hi Hr];
      exists (stopPolling x)
  end.
  split; [rewrite commit_unchanged; [reflexivity|exact H6]|].
  split; [repeat split; assumption|]. auto.
Qed.

(** X12.  When the poll times out after an upload whose preview has loaded
    and no resized image is shown, the page is left with the timeout message
    and not one control: no file can be selected, no parameter changed, no
    upload, download or reset started. *)
Theorem timeout_leaves_no_control (s : State) (t : TimerId) (now : N) :
  reachable maxPollingAttempts s ->
  pollingIntervalRef s = Some t ->
  maxPollingAttempts <= pollingAttemptsRef s ->
  truthy (originalPreviewUrl s) = true ->
  truthy (resizedImageUrl s) = false ->
  exists s',
    handle maxPollingAttempts s (Tick t now) = Some s' /\
    exhausted s' /\
    forall e, isUserEvent e = true -> offered s' e = false.
Proof.
  intros Hreach Hr Hle Hprev Hres.
  destruct (@reachable_Inv maxPollingAttempts s Hreach) as (Ht & Hk & Hs).
  assert (Hsel : selectedFile s = None).
  { apply Hs. intros E. assert (Hx : truthy (lastUploadedKey s) = true)
      by (apply Hk; congruence). rewrite E in Hx. discriminate Hx. }
  pose proof Ht as Hiv. unfold timerInvariant in Hiv. rewrite Hr in Hiv.
  destruct Hiv as (key & url & Hi).
  assert (Hf : findInterval t s
               = Some {| intervalId := t; intervalKey := key; intervalUrl := url |}).
  { rewrite (@findInterval_single s _ t Hi). cbn. now rewrite Nat.eqb_refl. }
  destruct (@timeout_tick_state s t now _ Ht Hf Hle)
    as (s' & Hh & Hex & E1 & E2 & E3 & _).
  exists s'. split; [exact Hh|]. split; [exact Hex|].
  destruct Hex as (_ & _ & Hl & _).
  intros e He. unfold offered. rewrite E1, E2, E3, Hl, Hsel, Hprev, Hres.
  destruct e; try discriminate He; reflexivity.
Qed.

(** [stopPolling] resets the attempt counter, also when no poll runs. *)
Lemma stopPolling_attempts (s : State) :
  (pollingIntervalRef s = None -> pollingAttemptsRef s = 0) ->
  pollingAttemptsRef (stopPolling s) = 0 /\ pollingIntervalRef (stopPolling s) = None.
Proof.
  unfold stopPolling. intros H. destruct (pollingIntervalRef s) eqn:E; fields; auto.
Qed.

Lemma stopPolling_idle (s : State) : pollingIntervalRef s = None -> stopPolling s = s.
Proof. unfold stopPolling. now intros ->. Qed.

Lemma dispatch_attempts (s d : State) (e : Event) :
  timerInvariant s ->
  (pollingIntervalRef s = None -> pollingAttemptsRef s = 0) ->
  dispatch maxPollingAttempts s e = Some d ->
  (pollingAttemptsRef d = pollingAttemptsRef s /\
   pollingIntervalRef d = pollingIntervalRef s) \/
  (pollingAttemptsRef d = 0 /\ pollingIntervalRef d = None) \/
  (pollingAttemptsRef d = pollingAttemptsRef s + 1 /\
   pollingAttemptsRef d <= maxPollingAttempts /\
   pollingIntervalRef d = pollingIntervalRef s /\ pollingIntervalRef s <> None).
Proof.
  intros Ht HP Hd.
  assert (Hreset : forall x,
             pollingIntervalRef x = pollingIntervalRef s ->
             pollingAttemptsRef x = pollingAttemptsRef s ->
             pollingAttemptsRef (stopPolling x) = 0 /\
             pollingIntervalRef (stopPolling x) = None).
  { intros x E1 E2. apply stopPolling_attempts. rewrite E1, E2. exact HP. }
  destruct e; cbn [dispatch] in Hd.
  - inversion Hd; subst d. unfold handleFileChange.
    destruct file; [right; left; fields; now apply Hreset|left; split; reflexivity].
  - inversion Hd; subst d. left; split; reflexivity.
  - inversion Hd; subst d. left; split; reflexivity.
  - inversion Hd; subst d. left; split; reflexivity.
  - inversion Hd; subst d. left; split; reflexivity.
  - inversion Hd; subst d. left; split; reflexivity.
  - inversion Hd; subst d. unfold handleDimensionChange.
    destruct (eqString type (str "width")); [left; split; reflexivity|].
    destruct (eqString type (str "height")); left; split; reflexivity.
  - inversion Hd; subst d. unfold handleUpload.
    destruct (selectedFile s); [right; left; fields; now apply Hreset|left; split; reflexivity].
  - destruct (findUpload flow s) as [fl|]; [|discriminate].
    destruct (flowStage fl); [|discriminate]. inversion Hd; subst d.
    destruct o; cbn [brokerContinuation]; unfold handleUpload_catch;
      [left; split; reflexivity|right; left; now apply Hreset..].
  - destruct (findUpload flow s) as [fl|]; [|discriminate].
    destruct (flowStage fl); [discriminate|]. inversion Hd; subst d.
    destruct o; cbn [transferContinuation]; unfold handleUpload_catch.
    + destruct (responseOk status); [left; split; reflexivity|].
      right; left; now apply Hreset.
    + right; left; now apply Hreset.
  - destruct (findInterval t s) as [iv|] eqn:Hf; [|discriminate]. inversion Hd; subst d.
    assert (Hr : pollingIntervalRef s <> None).
    { intros E. unfold timerInvariant in Ht. rewrite E in Ht.
      rewrite (@findInterval_nil s t Ht) in Hf. discriminate Hf. }
    unfold intervalCallback. fields.
    destruct (Nat.ltb_spec maxPollingAttempts (pollingAttemptsRef s + 1)).
    + right; left. apply stopPolling_attempts. fields. intros E. contradiction.
    + right; right. fields. repeat split; [lia|exact Hr].
  - destruct (findProbe p s) as [pr|]; [|discriminate]. inversion Hd; subst d.
    unfold probeContinuation. destruct o as [status|message]; [|left; split; reflexivity].
    destruct (responseOk status); [right; left; fields; now apply Hreset|].
    destruct ((status =? 403) || (status =? 404))%N; left; split; reflexivity.
  - inversion Hd; subst d. unfold resetClick. right; left; now apply Hreset.
  - inversion Hd; subst d. unfold handleDownloadClick.
    destruct (truthy (resizedImageUrl s)); left; split; reflexivity.
  - inversion Hd; subst d. unfold downloadContinuation.
    destruct o as [[|] ?|?]; left; split; reflexivity.
Qed.

Lemma commit_attempts (k : option JSString) (d : State) :
  (pollingIntervalRef d = None -> pollingAttemptsRef d = 0) ->
  commit k d = d \/ pollingAttemptsRef (commit k d) = 0.
Proof.
  intros HP. unfold commit. destruct (sameKey k (lastUploadedKey d)); [now left|right].
  destruct (stopPolling_attempts d HP) as [Ha Hr].
  unfold pollingEffect. rewrite (stopPolling_idle _ Hr).
  destruct (truthy (lastUploadedKey (stopPolling d))); [|exact Ha].
  destruct (getOutputKey _) as [outputKey logged]. reflexivity.
Qed.

(** X13.  Between events the attempt counter never exceeds the budget, and
    it is 0 whenever no poll is running: every way of stopping a poll resets
    it, and the tick that would exceed the budget stops the poll instead. *)
Theorem attempts_within_budget (s : State) :
  reachable maxPollingAttempts s ->
  pollingAttemptsRef s <= maxPollingAttempts /\
  (pollingIntervalRef s = None -> pollingAttemptsRef s = 0).
Proof.
  induction 1 as [|s e s' Hreach [IHa IHp] Hh].
  - split; [cbn; lia|reflexivity].
  - destruct (@reachable_Inv maxPollingAttempts s Hreach) as (Ht & _ & _).
    unfold handle in Hh.
    destruct (dispatch maxPollingAttempts s e) as [d|] eqn:Hd; [|discriminate].
    cbn in Hh. inversion Hh; subst s'. clear Hh.
    assert (Hdd : pollingAttemptsRef d <= maxPollingAttempts /\
                  (pollingIntervalRef d = None -> pollingAttemptsRef d = 0)).
    { destruct (@dispatch_attempts s d e Ht IHp Hd)
        as [[E1 E2]|[[E1 E2]|(E1 & E2 & E3 & E4)]].
      - rewrite E1, E2. auto.
      - rewrite E1. split; [lia|reflexivity].
      - split; [exact E2|]. rewrite E3. intros E. contradiction. }
    destruct (@commit_attempts (lastUploadedKey s) d (proj2 Hdd)) as [->|E].
    + exact Hdd.
    + rewrite E. split; [lia|reflexivity].
Qed.

(** X14.  [Resize Another Image] returns every state variable to its first
    value and stops the poll, but keeps the three parameters, and cancels no
    request: the uploads and probes in flight stay in flight. *)
Theorem reset_returns_to_start (s : State) :
  reachable maxPollingAttempts s ->
  exists s',
    handle maxPollingAttempts s ResetClick = Some s' /\
    selectedFile s' = None /\ uploadStatus s' = [] /\ isLoading s' = false /\
    resizedImageUrl s' = None /\ originalPreviewUrl s' = None /\
    lastUploadedKey s' = None /\
    intervals s' = [] /\ pollingIntervalRef s' = None /\
    quality s' = quality s /\ width s' = width s /\ height s' = height s /\
    uploads s' = uploads s /\ probes s' = probes s.
Proof.
  intros Hreach. destruct (@reachable_Inv maxPollingAttempts s Hreach) as (Ht & _ & _).
  eexists. split; [reflexivity|]. cbn [dispatch option_map].
  destruct (commit_state (lastUploadedKey s) (resetClick s))
    as (-> & -> & -> & -> & -> & ->).
  destruct (commit_parameters (lastUploadedKey s) (resetClick s)) as (-> & -> & -> & ->).
  destruct (commit_requests (lastUploadedKey s) (resetClick s)) as (_ & ->).
  assert (Hd : intervals (resetClick s) = [] /\ pollingIntervalRef (resetClick s) = None).
  { unfold resetClick.
    match goal with |- context [stopPolling ?x] => exact (@stopPolling_timers x Ht) end. }
  destruct Hd as [Hi Hr].
  assert (Htd : timerInvariant (resetClick s)).
  { unfold timerInvariant. now rewrite Hr. }
  assert (Hk : lastUploadedKey (resetClick s) = None).
  { unfold resetClick. now rewrite stopPolling_lastUploadedKey. }
  destruct (@commit_no_poll (lastUploadedKey s) _ Htd Hi Hr) as [-> ->].
  { now rewrite Hk. }
  unfold resetClick.
  match goal with
  | |- context [stopPolling ?x] =>
      destruct (stopPolling_state x) as (-> & -> & -> & -> & -> & -> & _);
      destruct (stopPolling_parameters x) as (-> & -> & -> & ->);
      rewrite (stopPolling_probes x)
  end.
  repeat split.
Qed.

(** One event keeps the poll on the location derived from the recorded
    key: a handler keeps or stops the timer, and the effect starts a timer
    only for the key just recorded. *)
Lemma handle_target (s s' : State) (e : Event) :
  Inv s -> pollTargetsKey s ->
  handle maxPollingAttempts s e = Some s' ->
  pollTargetsKey s'.
Proof.
  intros (Ht & _ & _) Htar Hh. unfold handle in Hh.
  destruct (dispatch maxPollingAttempts s e) as [d|] eqn:Hd; [|discriminate].
  cbn in Hh. inversion Hh; subst s'. clear Hh.
  pose proof (@dispatch_timers maxPollingAttempts s d e Ht Hd) as Htm.
  pose proof (@timersKeptOrStopped_invariant s d Ht Htm) as Htd.
  destruct (@commit_spec (lastUploadedKey s) d Htd)
    as [[Hsame Hc]|(Hdiff & _ & Hkey & [(_ & _ & Hr0)|(Htr & _)])].
  - rewrite Hc. intros t Hr. destruct Htm as [[Hi E]|[_ E]]; [|congruence].
    rewrite E in Hr. destruct (Htar t Hr) as (key & Hne & Hk & Hiv).
    exists key. rewrite Hi, Hsame. auto.
  - intros t Hr. congruence.
  - destruct (lastUploadedKey d) as [key|] eqn:Ek; [|discriminate Htr].
    assert (Hne : key <> []) by (intros ->; discriminate Htr).
    assert (Hd0 : lastUploadedKey s <> Some key) by congruence.
    destruct (@commit_starts_poll (lastUploadedKey s) d key Htd Ek Hne Hd0)
      as (t0 & Hr0 & _ & Hi0).
    intros t Hr. exists key. rewrite Hkey. rewrite Hr0 in Hr. inversion Hr; subst t0.
    auto.
Qed.

(** X15.  Whenever a poll is running, a non-empty key is recorded and the
    one live timer probes the public URL of the location that getOutputKey
    derives from that key. *)
Theorem poll_targets_recorded_key (s : State) :
  reachable maxPollingAttempts s -> pollTargetsKey s.
Proof.
  induction 1 as [|s e s' Hreach IH Hh].
  - intros t Hr. discriminate Hr.
  - exact (@handle_target s s' e (@reachable_Inv maxPollingAttempts s Hreach) IH Hh).
Qed.

(** Only a tick below the budget sends a request, to the URL its timer was
    started with. *)
Lemma dispatch_issued (s d : State) (e : Event) :
  dispatch maxPollingAttempts s e = Some d ->
  issued d = issued s \/
  exists t now iv,
    e = Tick t now /\ findInterval t s = Some iv /\
    issued d = (intervalUrl iv ++ str "?t=" ++ showN now) :: issued s.
Proof.
  intros Hd. destruct e; cbn [dispatch] in Hd.
  - inversion Hd; subst d. unfold handleFileChange.
    destruct file; left; fields; rewrite ?stopPolling_issued; reflexivity.
  - inversion Hd; subst d. now left.
  - inversion Hd; subst d. now left.
  - inversion Hd; subst d. now left.
  - inversion Hd; subst d. now left.
  - inversion Hd; subst d. now left.
  - inversion Hd; subst d. unfold handleDimensionChange.
    destruct (eqString type (str "width")); [now left|].
    destruct (eqString type (str "height")); now left.
  - inversion Hd; subst d. unfold handleUpload.
    destruct (selectedFile s); left; fields; rewrite ?stopPolling_issued; reflexivity.
  - destruct (findUpload flow s) as [fl|]; [|discriminate].
    destruct (flowStage fl); [|discriminate]. inversion Hd; subst d.
    destruct o; cbn [brokerContinuation]; unfold handleUpload_catch;
      left; fields; rewrite ?stopPolling_issued; reflexivity.
  - destruct (findUpload flow s) as [fl|]; [|discriminate].
    destruct (flowStage fl); [discriminate|]. inversion Hd; subst d.
    destruct o; cbn [transferContinuation]; unfold handleUpload_catch;
      [destruct (responseOk status)|];
      left; fields; rewrite ?stopPolling_issued; reflexivity.
  - destruct (findInterval t s) as [iv|] eqn:Hf; [|discriminate]. inversion Hd; subst d.
    unfold intervalCallback. fields.
    destruct (maxPollingAttempts <? pollingAttemptsRef s + 1).
    + left. now rewrite stopPolling_issued.
    + right. exists t, now, iv. auto.
  - destruct (findProbe p s) as [pr|]; [|discriminate]. inversion Hd; subst d.
    unfold probeContinuation. destruct o as [status|message]; [|now left].
    destruct (responseOk status); [left; fields; now rewrite stopPolling_issued|].
    destruct ((status =? 403) || (status =? 404))%N; now left.
  - inversion Hd; subst d. unfold resetClick. left. now rewrite stopPolling_issued.
  - inversion Hd; subst d. unfold handleDownloadClick.
    destruct (truthy (resizedImageUrl s)); now left.
  - inversion Hd; subst d. unfold downloadContinuation.
    destruct o as [[|] ?|?]; now left.
Qed.

(** X16.  Every probe the component ever sends goes to the public URL of
    a location derived by getOutputKey from a non-empty key, followed by the
    time stamp of the request. *)
Theorem probes_go_to_derived_locations (s : State) :
  reachable maxPollingAttempts s -> Forall derivedRequest (issued s).
Proof.
  intros Hreach.
  enough (H : pollTargetsKey s /\ Forall derivedRequest (issued s)) by apply H.
  induction Hreach as [|s e s' Hreach [IHt IHi] Hh].
  - split; [intros t Hr; discriminate Hr|constructor].
  - pose proof (@reachable_Inv maxPollingAttempts s Hreach) as HInv.
    split; [exact (@handle_target s s' e HInv IHt Hh)|].
    destruct HInv as (Ht & _ & _). unfold handle in Hh.
    destruct (dispatch maxPollingAttempts s e) as [d|] eqn:Hd; [|discriminate].
    cbn in Hh. inversion Hh; subst s'. clear Hh.
    rewrite (proj1 (commit_requests (lastUploadedKey s) d)).
    destruct (@dispatch_issued s d e Hd) as [->|(t & now & iv & _ & Hf & ->)];
      [exact IHi|].
    constructor; [|exact IHi].
    unfold timerInvariant in Ht.
    destruct (pollingIntervalRef s) as [t0|] eqn:Hr.
    + destruct (IHt t0 Hr) as (key & Hne & _ & Hiv).
      rewrite (@findInterval_single s _ t Hiv) in Hf. cbn [intervalId] in Hf.
      destruct (t0 =? t); [|discriminate Hf]. inversion Hf; subst iv.
      exists key, now. auto.
    + rewrite (@findInterval_nil s t Ht) in Hf. discriminate Hf.
Qed.

(** X17.  getOutputKey distinguishes exactly three cases.  A key of the
    new shape gives [resized-<prefix>/<base name>.jpeg] and logs nothing; a
    key of the legacy shape gives the same form and logs one warning; every
    other key is kept whole under [resized-unknown/], with one error logged.
    In each case the result starts with [resized-]. *)
Theorem getOutputKey_cases (key : JSString) :
  ((exists prefix name,
      NewShape key prefix name /\
      getOutputKey key =
      (str "resized-" ++ prefix ++ str "/" ++ baseNameOf name ++ str "." ++ outputFormat, []))
   \/
   (exists prefix name,
      LegacyShape key prefix name /\
      getOutputKey key =
      (str "resized-" ++ prefix ++ str "/" ++ baseNameOf name ++ str "." ++ outputFormat,
       [ConsoleWarn [str "Detected old key format, generating compatible output key."]]))
   \/
   (Unrecognized key /\
    getOutputKey key =
    (str "resized-unknown/" ++ key,
     [ConsoleError [str "Could not parse prefix from base key:"; key]]))) /\
  exists rest, fst (getOutputKey key) = str "resized-" ++ rest.
Proof.
  assert (Hcases :
    (exists prefix name, NewShape key prefix name) \/
    (exists prefix name, LegacyShape key prefix name) \/ Unrecognized key).
  { destruct (matchAnchored newPrefixPattern key) as [[p n]|] eqn:E1.
    { left. exists p, n. now apply matchAnchored_new. }
    destruct (matchAnchored oldPrefixPattern key) as [[p n]|] eqn:E2.
    { right; left. exists p, n. now apply matchAnchored_old. }
    right; right. split; intros p n H.
    - apply matchAnchored_new in H. congruence.
    - apply matchAnchored_old in H. congruence. }
  destruct Hcases as [(p & n & H)|[(p & n & H)|H]].
  - pose proof (getOutputKey_new_shape H) as E. split.
    + left. exists p, n. auto.
    + rewrite E. cbn [fst]. eexists. reflexivity.
  - pose proof (getOutputKey_legacy_shape H) as E. split.
    + right; left. exists p, n. auto.
    + rewrite E. cbn [fst]. eexists. reflexivity.
  - pose proof (getOutputKey_unrecognized H) as E. split.
    + right; right. auto.
    + rewrite E. cbn [fst]. exists (str "unknown/" ++ key). reflexivity.
Qed.

(** X18.  Selecting a file starts over: the file is recorded and named in
    the message, and the previous result, key, preview, loading state and
    poll are gone.  An empty selection only clears the selection, the
    preview and the message: it neither stops a running poll nor ends the
    loading state. *)
Theorem file_change_cases (s s' : State) (file : option File) :
  reachable maxPollingAttempts s ->
  handle maxPollingAttempts s (FileChange file) = Some s' ->
  match file with
  | Some f =>
      selectedFile s' = Some f /\ uploadStatus s' = str "Selected: " ++ fileName f /\
      resizedImageUrl s' = None /\ lastUploadedKey s' = None /\ isLoading s' = false /\
      originalPreviewUrl s' = None /\ intervals s' = [] /\ pollingIntervalRef s' = None
  | None =>
      selectedFile s' = None /\ uploadStatus s' = [] /\ originalPreviewUrl s' = None /\
      resizedImageUrl s' = resizedImageUrl s /\ lastUploadedKey s' = lastUploadedKey s /\
      isLoading s' = isLoading s /\ intervals s' = intervals s /\
      pollingIntervalRef s' = pollingIntervalRef s /\
      pollingAttemptsRef s' = pollingAttemptsRef s
  end.
Proof.
  intros Hreach Hh. destruct (@reachable_Inv maxPollingAttempts s Hreach) as (Ht & _ & _).
  unfold handle in Hh. cbn [dispatch option_map] in Hh. inversion Hh; subst s'. clear Hh.
  destruct file as [f|].
  - destruct (commit_state (lastUploadedKey s) (handleFileChange (Some f) s))
      as (-> & -> & -> & -> & -> & ->).
    assert (Hd : intervals (handleFileChange (Some f) s) = [] /\
                 pollingIntervalRef (handleFileChange (Some f) s) = None).
    { unfold handleFileChange. fields.
      match goal with |- context [stopPolling ?x] => exact (@stopPolling_timers x Ht) end. }
    destruct Hd as [Hi Hr].
    assert (Htd : timerInvariant (handleFileChange (Some f) s)).
    { unfold timerInvariant. now rewrite Hr. }
    assert (Hk : lastUploadedKey (handleFileChange (Some f) s) = None).
    { unfold handleFileChange. fields. now rewrite stopPolling_lastUploadedKey. }
    destruct (@commit_no_poll (lastUploadedKey s) _ Htd Hi Hr) as [-> ->].
    { now rewrite Hk. }
    unfold handleFileChange. fields.
    match goal with
    | |- context [stopPolling ?x] =>
        destruct (stopPolling_state x) as (-> & -> & -> & -> & _ & -> & _)
    end.
    repeat split.
  - rewrite commit_unchanged by reflexivity. repeat split.
Qed.

(** X19.  A download changes nothing but the message and the console: the
    click sets [Preparing download...] when a resized image is shown and does
    nothing at all otherwise; the outcome sets [Download started.] or a
    message that starts with [Error preparing download: ].  Selection, result,
    key, loading state, poll and requests are as they were. *)
Theorem download_changes_message_only (s s' : State) (e : Event) :
  (e = DownloadClick \/ exists o, e = DownloadSettled o) ->
  handle maxPollingAttempts s e = Some s' ->
  (e = DownloadClick -> truthy (resizedImageUrl s) = false -> s' = s) /\
  (e = DownloadClick -> truthy (resizedImageUrl s) = true ->
   uploadStatus s' = str "Preparing download...") /\
  (forall statusText, e = DownloadSettled (DownloadResponse true statusText) ->
   uploadStatus s' = str "Download started.") /\
  (forall o, e = DownloadSettled o ->
   (forall statusText, o <> DownloadResponse true statusText) ->
   exists message, uploadStatus s' = str "Error preparing download: " ++ message) /\
  selectedFile s' = selectedFile s /\ resizedImageUrl s' = resizedImageUrl s /\
  originalPreviewUrl s' = originalPreviewUrl s /\
  lastUploadedKey s' = lastUploadedKey s /\ isLoading s' = isLoading s /\
  intervals s' = intervals s /\ pollingIntervalRef s' = pollingIntervalRef s /\
  pollingAttemptsRef s' = pollingAttemptsRef s /\
  probes s' = probes s /\ issued s' = issued s /\ uploads s' = uploads s.
Proof.
  intros He Hh. unfold handle in Hh.
  destruct He as [->|[o ->]]; cbn [dispatch option_map] in Hh;
    inversion Hh; subst s'; clear Hh.
  - unfold handleDownloadClick.
    destruct (truthy (resizedImageUrl s)) eqn:E;
      rewrite commit_unchanged by reflexivity.
    + split; [discriminate|]. split; [reflexivity|].
      split; [discriminate|]. split; [discriminate|]. repeat split.
    + split; [reflexivity|]. split; [discriminate|].
      split; [discriminate|]. split; [discriminate|]. repeat split.
  - rewrite commit_unchanged by (destruct o as [[|] ?|?]; reflexivity).
    split; [discriminate|]. split; [discriminate|].
    split; [intros st E; inversion E; reflexivity|].
    split.
    + intros o' E Hno. inversion E; subst o'. destruct o as [[|] st|m].
      * exfalso. exact (Hno st eq_refl).
      * eexists. reflexivity.
      * eexists. reflexivity.
    + destruct o as [[|] ?|?]; repeat split.
Qed.

End MorePolling.

(** ** The further properties on the sample sessions *)


Lemma sampleAwaitingTransfer_reachable :
  reachable sourceMaxPollingAttempts sampleAwaitingTransfer.
Proof.
  apply (@reachable_run sourceMaxPollingAttempts (firstn 3 sampleUpload) initialState).
  - constructor.
  - vm_compute. reflexivity.
Qed.


Lemma sampleLastAttemptState_reachable :
  reachable sourceMaxPollingAttempts sampleLastAttemptState.
Proof.
  apply (@reachable_run sourceMaxPollingAttempts
           (samplePreviewedUpload ++ List.map (Tick 1) (repeat 0%N 15)) initialState).
  - constructor.
  - vm_compute. reflexivity.
Qed.

Lemma sampleFoundState_reachable : reachable sourceMaxPollingAttempts sampleFoundState.
Proof.
  apply (@reachable_run sourceMaxPollingAttempts
           (sampleUpload ++ [Tick 1 1000; ProbeReply 2 (HeadResponse 200) 1500]) initialState).
  - constructor.
  - vm_compute. reflexivity.
Qed.


Lemma transfer_success_starts_poll_witness :
  reachable sourceMaxPollingAttempts sampleAwaitingTransfer /\
  responseOk 200 = true /\
  handle sourceMaxPollingAttempts sampleAwaitingTransfer
    (TransferReply 0 (TransferResponse 200 (str "OK") [])) = Some samplePollState /\
  lastUploadedKey samplePollState = Some (str "q85_w128_h128/a.png") /\
  selectedFile samplePollState = None /\
  pollingAttemptsRef samplePollState = 0 /\
  exists t,
    pollingIntervalRef samplePollState = Some t /\
    intervals samplePollState =
      [{| intervalId := t;
          intervalKey := fst (getOutputKey (str "q85_w128_h128/a.png"));
          intervalUrl := publicUrlOf (fst (getOutputKey (str "q85_w128_h128/a.png"))) |}].
Proof.
  assert (H : handle sourceMaxPollingAttempts sampleAwaitingTransfer
                (TransferReply 0 (TransferResponse 200 (str "OK") [])) = Some samplePollState)
    by (vm_compute; reflexivity).
  assert (Hf : findUpload 0 sampleAwaitingTransfer = Some _) by (vm_compute; reflexivity).
  assert (Hne : str "q85_w128_h128/a.png" <> []) by discriminate.
  assert (Hdiff : lastUploadedKey sampleAwaitingTransfer <> Some (str "q85_w128_h128/a.png"))
    by discriminate.
  split; [exact sampleAwaitingTransfer_reachable|]. split; [reflexivity|].
  split; [exact H|].
  pose proof (@transfer_success_starts_poll sourceMaxPollingAttempts sampleAwaitingTransfer
                samplePollState 0 _ (str "https://upload.example/put")
                (str "q85_w128_h128/a.png") 200%N (str "OK") []
                sampleAwaitingTransfer_reachable Hf eq_refl eq_refl Hne Hdiff H)
    as (Hk & Hsel & _ & _ & Ha & Ht).
  split; [exact Hk|]. split; [exact Hsel|]. split; [exact Ha|exact Ht].
Defined.


Lemma timeout_leaves_no_control_witness :
  reachable sourceMaxPollingAttempts sampleLastAttemptState /\
  pollingIntervalRef sampleLastAttemptState = Some 1 /\
  sourceMaxPollingAttempts <= pollingAttemptsRef sampleLastAttemptState /\
  truthy (originalPreviewUrl sampleLastAttemptState) = true /\
  truthy (resizedImageUrl sampleLastAttemptState) = false /\
  exists s',
    handle sourceMaxPollingAttempts sampleLastAttemptState (Tick 1 32000) = Some s' /\
    exhausted s' /\
    offered s' (FileChange (Some sampleFile)) = false /\
    offered s' UploadClick = false /\
    offered s' ResetClick = false.
Proof.
  split; [exact sampleLastAttemptState_reachable|]. split; [reflexivity|].
  split; [apply Nat.leb_le; reflexivity|]. split; [reflexivity|]. split; [reflexivity|].
  destruct (@timeout_leaves_no_control sourceMaxPollingAttempts sampleLastAttemptState 1
              32000%N sampleLastAttemptState_reachable eq_refl
              (proj1 (Nat.leb_le sourceMaxPollingAttempts
                        (pollingAttemptsRef sampleLastAttemptState)) eq_refl)
              eq_refl eq_refl)
    as (s' & Hh & Hex & Hoff).
  exists s'. split; [exact Hh|]. split; [exact Hex|].
  split; [exact (Hoff (FileChange (Some sampleFile)) eq_refl)|].
  split; [exact (Hoff UploadClick eq_refl)|exact (Hoff ResetClick eq_refl)].
Defined.

Lemma attempts_within_budget_witness :
  reachable sourceMaxPollingAttempts sampleLastAttemptState /\
  pollingAttemptsRef sampleLastAttemptState = 15 /\
  pollingAttemptsRef sampleLastAttemptState <= sourceMaxPollingAttempts /\
  (pollingIntervalRef sampleLastAttemptState = None ->
   pollingAttemptsRef sampleLastAttemptState = 0).
Proof.
  split; [exact sampleLastAttemptState_reachable|]. split; [reflexivity|].
  exact (@attempts_within_budget sourceMaxPollingAttempts sampleLastAttemptState
           sampleLastAttemptState_reachable).
Defined.

Lemma reset_returns_to_start_witness :
  reachable sourceMaxPollingAttempts sampleFoundState /\
  resizedImageUrl sampleFoundState = Some (sampleUrl ++ str "?t=1500") /\
  exists s',
    handle sourceMaxPollingAttempts sampleFoundState ResetClick = Some s' /\
    selectedFile s' = None /\ uploadStatus s' = [] /\ isLoading s' = false /\
    resizedImageUrl s' = None /\ originalPreviewUrl s' = None /\
    lastUploadedKey s' = None /\
    intervals s' = [] /\ pollingIntervalRef s' = None /\
    quality s' = quality sampleFoundState /\ width s' = width sampleFoundState /\
    height s' = height sampleFoundState /\
    uploads s' = uploads sampleFoundState /\ probes s' = probes sampleFoundState.
Proof.
  split; [exact sampleFoundState_reachable|]. split; [reflexivity|].
  exact (@reset_returns_to_start sourceMaxPollingAttempts sampleFoundState
           sampleFoundState_reachable).
Defined.

Lemma poll_targets_recorded_key_witness :
  reachable sourceMaxPollingAttempts samplePollState /\
  pollingIntervalRef samplePollState = Some 1 /\
  pollTargetsKey samplePollState.
Proof.
  split; [exact samplePollState_reachable|]. split; [reflexivity|].
  exact (@poll_targets_recorded_key sourceMaxPollingAttempts samplePollState
           samplePollState_reachable).
Defined.

Lemma probes_go_to_derived_locations_witness :
  reachable sourceMaxPollingAttempts sampleProbingState /\
  issued sampleProbingState = [sampleUrl ++ str "?t=1000"] /\
  Forall derivedRequest (issued sampleProbingState).
Proof.
  split; [exact sampleProbingState_reachable|]. split; [reflexivity|].
  exact (@probes_go_to_derived_locations sourceMaxPollingAttempts sampleProbingState
           sampleProbingState_reachable).
Defined.

Lemma file_change_cases_witness :
  reachable sourceMaxPollingAttempts samplePollState /\
  exists s',
    handle sourceMaxPollingAttempts samplePollState (FileChange None) = Some s' /\
    uploadStatus s' = [] /\ isLoading s' = true /\
    pollingIntervalRef s' = Some 1 /\ intervals s' = intervals samplePollState.
Proof.
  split; [exact samplePollState_reachable|]. eexists.
  assert (H : handle sourceMaxPollingAttempts samplePollState (FileChange None) = Some _)
    by (vm_compute; reflexivity).
  split; [exact H|].
  pose proof (@file_change_cases sourceMaxPollingAttempts samplePollState _ None
                samplePollState_reachable H)
    as (_ & Hu & _ & _ & _ & Hl & Hi & Hr & _).
  split; [exact Hu|]. split; [exact Hl|]. split; [exact Hr|exact Hi].
Defined.

Lemma download_changes_message_only_witness :
  truthy (resizedImageUrl sampleFoundState) = true /\
  exists s',
    handle sourceMaxPollingAttempts sampleFoundState DownloadClick = Some s' /\
    uploadStatus s' = str "Preparing download..." /\
    resizedImageUrl s' = resizedImageUrl sampleFoundState /\
    lastUploadedKey s' = lastUploadedKey sampleFoundState /\
    isLoading s' = false.
Proof.
  split; [reflexivity|]. eexists.
  assert (H : handle sourceMaxPollingAttempts sampleFoundState DownloadClick = Some _)
    by (vm_compute; reflexivity).
  split; [exact H|].
  pose proof (@download_changes_message_only sourceMaxPollingAttempts sampleFoundState _
                DownloadClick (or_introl eq_refl) H)
    as (_ & Hs & _ & _ & _ & Hres & _ & Hk & Hl & _).
  split; [exact (Hs eq_refl eq_refl)|]. split; [exact Hres|]. split; [exact Hk|exact Hl].
Defined.

Lemma sequential_poll_found_witness :
  intervals samplePollState =
    [{| intervalId := 1; intervalKey := str "resized-q85_w128_h128/a.jpeg";
        intervalUrl := sampleUrl |}] /\
  probes samplePollState = [] /\
  exists s',
    run sourceMaxPollingAttempts samplePollState
      [Tick 1 2000; ProbeReply 2 (HeadResponse 404) 2100;
       Tick 1 4000; ProbeReply 3 (HeadRejected (str "Failed to fetch")) 4100;
       Tick 1 6000; ProbeReply 4 (HeadResponse 200) 6100] = Some s' /\
    List.length (issued s') = 3 /\
    resizedImageUrl s' = Some (sampleUrl ++ str "?t=6100") /\
    pollingIntervalRef s' = None /\ intervals s' = [].
Proof.
  split; [reflexivity|]. split; [reflexivity|].
  destruct (@sequential_poll_found sourceMaxPollingAttempts
              [(HeadResponse 404, 2000%N, 2100%N);
               (HeadRejected (str "Failed to fetch"), 4000%N, 4100%N)]
              200%N 6000%N 6100%N samplePollState
              {| intervalId := 1; intervalKey := str "resized-q85_w128_h128/a.jpeg";
                 intervalUrl := sampleUrl |}
              eq_refl eq_refl eq_refl eq_refl
              (proj1 (Nat.ltb_lt (pollingAttemptsRef samplePollState + 2)
                        sourceMaxPollingAttempts) eq_refl)
              eq_refl)
    as (s' & Hrun & Hn & Hres & _ & _ & Hr & Hi & _).
  exists s'. split; [exact Hrun|]. split; [exact Hn|]. split; [exact Hres|].
  split; [exact Hr|exact Hi].
Defined.

Lemma reachable_parameters_witness :
  reachable sourceMaxPollingAttempts
    (stateAfter [FileChange (Some sampleFile); QualityInput 250; DimensionInput 0 (str "width");
                 UploadClick]) /\
  ParametersValid
    (stateAfter [FileChange (Some sampleFile); QualityInput 250; DimensionInput 0 (str "width");
                 UploadClick]).
Proof.
  assert (H : reachable sourceMaxPollingAttempts
                (stateAfter [FileChange (Some sampleFile); QualityInput 250;
                             DimensionInput 0 (str "width"); UploadClick])).
  { apply (@reachable_run sourceMaxPollingAttempts
             [FileChange (Some sampleFile); QualityInput 250; DimensionInput 0 (str "width");
              UploadClick] initialState).
    - constructor.
    - vm_compute. reflexivity. }
  split; [exact H|].
  exact (@reachable_parameters sourceMaxPollingAttempts _ H).
Defined.
